(** * Celestia: stellar classification and JPL ephemeris evaluation

    A shallow embedding of [src/celengine/stellarclass.cpp] (packing,
    unpacking, rendering and parsing of stellar classes) and of the JPL
    ephemeris loader and evaluator, together with the properties the
    specification states about them.

    Conventions.  A C++ unsigned integer of [w] bits is a [Z] kept in
    [0, 2^w) with the wrap-around written where the code can wrap; an
    enumeration is the [Z] of its underlying value, because the code builds
    enumeration values with [static_cast] from arbitrary bit fields; a
    [double] is a primitive IEEE 754 binary64 float. *)

From Stdlib Require Import ZArith String Ascii List Bool Lia.
From Stdlib Require Import Strings.Byte PrimFloat FloatOps SpecFloat Uint63.
From Stdlib Require FloatAxioms.
Import ListNotations.

Local Open Scope Z_scope.

(** ** Outcomes of a C++ fragment *)

(** A fragment returns a value, stops on a failed [assert], or leaves the
    defined behaviour of the language (an access outside an array, a
    conversion whose result is not representable). *)
Inductive outcome (A : Type) : Type :=
| Ret (a : A)
| AssertFail
| Undef.

Arguments Ret {A} a.
Arguments AssertFail {A}.
Arguments Undef {A}.

Definition bind {A B : Type} (m : outcome A) (k : A -> outcome B) : outcome B :=
  match m with
  | Ret a => k a
  | AssertFail => AssertFail
  | Undef => Undef
  end.

Notation "x <- m ;; k" := (bind m (fun x => k))
  (at level 61, m at next level, right associativity).

(** [assert(b)] of <cassert>, in a build that keeps assertions. *)
Definition assert_ (b : bool) : outcome unit :=
  if b then Ret tt else AssertFail.

(** ** Fixed-width integers *)

Definition u16 (x : Z) : Z := x mod 2 ^ 16.
Definition u32 (x : Z) : Z := x mod 2 ^ 32.
Definition u64 (x : Z) : Z := x mod 2 ^ 64.

(** ** String literals as arrays *)

(** A literal of [n] characters is an array of [n + 1] characters, the last
    one being the terminating NUL; subscripting it is defined for the indices
    [0 .. n] and for no other. *)
Definition NUL : ascii := Ascii.zero.

Definition lit_at (lit : string) (i : Z) : outcome ascii :=
  if (0 <=? i) && (i <=? Z.of_nat (String.length lit))
  then Ret (match String.get (Z.to_nat i) lit with
            | Some ch => ch
            | None => NUL
            end)
  else Undef.

(** [isdigit] of <cctype> in the C locale, for the characters it is defined
    on. *)
Definition isdigit (c : ascii) : bool :=
  let n := Z.of_nat (nat_of_ascii c) in (48 <=? n) && (n <=? 57).

(** [(unsigned int) c - (unsigned int) '0'] *)
Definition digit_value (c : ascii) : Z :=
  u32 (Z.of_nat (nat_of_ascii c) - 48).

(** ** Finite ranges *)

(** The integers [0 .. n - 1], for the properties checked over every value
    of a bit field. *)
Definition range (n : nat) : list Z := map Z.of_nat (seq 0 n).

(** The [n] integers from [lo] on. *)
Fixpoint interval (lo : Z) (n : nat) : list Z :=
  match n with
  | O => []
  | S n' => lo :: interval (lo + 1) n'
  end.

Module StellarClass.

(** *** The declarations of stellarclass.h *)

(** Modelled from the spec: stellarclass.h is not among the sources.  The
    star types are numbered in the order the specification lists them; they
    fill the three-bit field read by [unpackV1] and [unpackV2], whose
    [default] case rejects the values 4 to 7. *)
Definition NormalStar : Z := 0.
Definition WhiteDwarf : Z := 1.
Definition NeutronStar : Z := 2.
Definition BlackHole : Z := 3.

(** Modelled from the spec: the spectral classes of normal stars carry the
    ordinal at which [str] finds their letter in ["OBAFGKMRSNWW?LTYC"], which
    agrees with the comments of [packV1] and [unpackV1] (class Y took the
    value 15 that class C had before, and C follows it). *)
Definition Spectral_O : Z := 0.
Definition Spectral_B : Z := 1.
Definition Spectral_A : Z := 2.
Definition Spectral_F : Z := 3.
Definition Spectral_G : Z := 4.
Definition Spectral_K : Z := 5.
Definition Spectral_M : Z := 6.
Definition Spectral_R : Z := 7.
Definition Spectral_S : Z := 8.
Definition Spectral_N : Z := 9.
Definition Spectral_WC : Z := 10.
Definition Spectral_WN : Z := 11.
Definition Spectral_Unknown : Z := 12.
Definition Spectral_L : Z := 13.
Definition Spectral_T : Z := 14.
Definition Spectral_Y : Z := 15.
Definition Spectral_C : Z := 16.

(** Modelled from the spec: the eight white dwarf classes start at
    [Spectral_DA], the base [unpackV1] and [unpackV2] add to the stored
    field; [Spectral_DA - 1] has its four low bits clear, which is what makes
    the field [packV2] stores start at 0.  The order of the other seven is
    not fixed by the sources, and nothing below depends on it. *)
Definition Spectral_DA : Z := 17.
Definition Spectral_DB : Z := 18.
Definition Spectral_DC : Z := 19.
Definition Spectral_DO : Z := 20.
Definition Spectral_DQ : Z := 21.
Definition Spectral_DZ : Z := 22.
Definition Spectral_D : Z := 23.
Definition Spectral_DX : Z := 24.
Definition WDClassCount : Z := 8.

(** Modelled from the spec: the third Wolf-Rayet class and the four neutron
    star classes have no letter of their own in [str]; they are numbered after
    the white dwarf classes, and the properties below use of their values
    only that they are above 16. *)
Definition Spectral_WO : Z := 25.
Definition Spectral_Q : Z := 26.
Definition Spectral_QN : Z := 27.
Definition Spectral_QP : Z := 28.
Definition Spectral_QM : Z := 29.
Definition NeutronStarClassCount : Z := 4.

(** Modelled from the spec: the luminosity classes in the order the
    specification lists them, [Lum_Unknown] last. *)
Definition Lum_Ia0 : Z := 0.
Definition Lum_Ia : Z := 1.
Definition Lum_Ib : Z := 2.
Definition Lum_II : Z := 3.
Definition Lum_III : Z := 4.
Definition Lum_IV : Z := 5.
Definition Lum_V : Z := 6.
Definition Lum_VI : Z := 7.
Definition Lum_Unknown : Z := 8.

(** Modelled from the spec: a subclass is a digit 0..9 or this sentinel, the
    first value after the digits. *)
Definition Subclass_Unknown : Z := 10.

(** Modelled from the spec: the value type, a 4-tuple of the star type, the
    spectral class, the subclass and the luminosity class, in the order of
    the constructor call at the end of [parse]; the accessors read the
    members, [getSubclass] as an [unsigned int]. *)
Record t : Type := mk {
  starType : Z;
  specClass : Z;
  subclass : Z;
  lumClass : Z
}.

Definition getStarType (c : t) : Z := starType c.
Definition getSpectralClass (c : t) : Z := specClass c.
Definition getSubclass (c : t) : Z := subclass c.
Definition getLuminosityClass (c : t) : Z := lumClass c.

(** *** Packing *)

(** [packV1]: the operands are promoted to [int], the result is converted
    to [uint16_t] on return. *)
Definition packV1 (c : t) : Z :=
  let sc :=
    if specClass c =? Spectral_Y then u16 Spectral_Unknown
    else if Spectral_Y <? u16 (specClass c)
         then u16 (specClass c - 1)
         else u16 (specClass c) in
  u16 (Z.lor (Z.lor (Z.lor (Z.shiftl (u16 (starType c)) 12)
                           (Z.shiftl (Z.land sc 0x0f) 8))
                    (Z.shiftl (u16 (subclass c)) 4))
             (u16 (lumClass c))).

(** [packV2]: the star type is shifted left by 18, as the source has it. *)
Definition packV2 (c : t) : Z :=
  let sc := u16 (if starType c =? WhiteDwarf then specClass c - 1
                 else specClass c) in
  u16 (Z.lor (Z.lor (Z.lor (Z.shiftl (u16 (starType c)) 18)
                           (Z.shiftl (Z.land sc 0x1f) 8))
                    (Z.shiftl (Z.land (u16 (subclass c)) 0x0f) 4))
             (Z.land (u16 (lumClass c)) 0x0f)).

(** *** Unpacking *)

(** The unpack functions assign the members of [*this] one by one and return
    a flag; the object they leave behind is returned with the flag. *)
Definition set_starType (self : t) (v : Z) : t :=
  mk v (specClass self) (subclass self) (lumClass self).

Definition unpackV1 (self : t) (st : Z) : bool * t :=
  let self := set_starType self (Z.shiftr st 13) in
  if starType self =? NormalStar then
    let sp := Z.land (Z.shiftr st 8) 0xf in
    let sp := if sp =? Spectral_Y then Spectral_C else sp in
    (true, mk (starType self) sp (Z.land (Z.shiftr st 4) 0xf) (Z.land st 0xf))
  else if starType self =? WhiteDwarf then
    if WDClassCount <=? Z.land (Z.shiftr st 8) 0xf then (false, self)
    else (true, mk (starType self)
                   (Z.land (Z.shiftr st 8) 0xf + Spectral_DA)
                   (Z.land (Z.shiftr st 4) 0xf)
                   Lum_Unknown)
  else if starType self =? NeutronStar then
    if NeutronStarClassCount <=? Z.land (Z.shiftr st 4) 0xf then (false, self)
    else (true, mk (starType self)
                   (Z.land (Z.shiftr st 4) 0xf + Spectral_Q)
                   (Z.land (Z.shiftr st 4) 0xf)
                   Lum_Unknown)
  else if starType self =? BlackHole then
    (true, mk (starType self) Spectral_Unknown Subclass_Unknown Lum_Unknown)
  else (false, self).

Definition unpackV2 (self : t) (st : Z) : bool * t :=
  let self := set_starType self (Z.shiftr st 13) in
  if starType self =? NormalStar then
    (true, mk (starType self)
              (Z.land (Z.shiftr st 8) 0x1f)
              (Z.land (Z.shiftr st 4) 0xf)
              (Z.land st 0xf))
  else if starType self =? WhiteDwarf then
    if WDClassCount <=? Z.land (Z.shiftr st 8) 0xf then (false, self)
    else (true, mk (starType self)
                   (Z.land (Z.shiftr st 8) 0xf + Spectral_DA)
                   (Z.land (Z.shiftr st 4) 0xf)
                   Lum_Unknown)
  else if starType self =? NeutronStar then
    if NeutronStarClassCount <=? Z.land (Z.shiftr st 4) 0xf then (false, self)
    else (true, mk (starType self)
                   (Z.land (Z.shiftr st 4) 0xf + Spectral_Q)
                   (Z.land (Z.shiftr st 4) 0xf)
                   Lum_Unknown)
  else if starType self =? BlackHole then
    (true, mk (starType self) Spectral_Unknown Subclass_Unknown Lum_Unknown)
  else (false, self).

(** *** Rendering *)

Definition luminosity_suffix (lum : Z) : string :=
  if lum =? Lum_Ia0 then " I-a0"
  else if lum =? Lum_Ia then " I-a"
  else if lum =? Lum_Ib then " I-b"
  else if lum =? Lum_II then " II"
  else if lum =? Lum_III then " III"
  else if lum =? Lum_IV then " IV"
  else if lum =? Lum_V then " V"
  else if lum =? Lum_VI then " VI"
  else "".

(** The cases of the [switch] of [str], each one continuing into the next
    case where the source has neither [break] nor [return]. *)
Definition str_case_BlackHole (c : t) : outcome string := Ret "X"%string.

Definition str_case_NeutronStar (c : t) : outcome string :=
  s0 <- lit_at "Q" (u32 (getSpectralClass c)) ;;
  s1 <- lit_at "0123456789" (getSubclass c) ;;
  str_case_BlackHole c.

Definition str_case_WhiteDwarf (c : t) : outcome string :=
  s0 <- lit_at "WD" (u32 (getSpectralClass c)) ;;
  s1 <- lit_at "0123456789" (getSubclass c) ;;
  str_case_NeutronStar c.

(** [fmt::sprintf("%c%c%s", s0, s1, s2)] *)
Definition str_case_NormalStar (c : t) : outcome string :=
  s0 <- lit_at "OBAFGKMRSNWW?LTYC" (u32 (getSpectralClass c)) ;;
  s1 <- lit_at "0123456789" (getSubclass c) ;;
  Ret (String s0 (String s1 (luminosity_suffix (getLuminosityClass c)))).

Definition str (c : t) : outcome string :=
  if getStarType c =? WhiteDwarf then str_case_WhiteDwarf c
  else if getStarType c =? NeutronStar then str_case_NeutronStar c
  else if getStarType c =? BlackHole then str_case_BlackHole c
  else if getStarType c =? NormalStar then str_case_NormalStar c
  else Ret "?"%string.

(** *** Parsing *)

Inductive ParseState : Type :=
| BeginState
| EndState
| NormalStarState
| WolfRayetTypeState
| NormalStarClassState
| NormalStarSubclassState
| NormalStarSubclassDecimalState
| NormalStarSubclassFinalState
| LumClassBeginState
| LumClassIState
| LumClassIIState
| LumClassVState
| LumClassIdashState
| LumClassIaState
| WDTypeState
| WDExtendedTypeState
| WDSubclassState
| NeutronStarTypeState
| NeutronStarExtendedTypeState
| NeutronStarSubclassState
| SubdwarfPrefixState.

(** The local variables of [parse]; [i] is a [uint32_t]. *)
Record locals : Type := mkLocals {
  i : Z;
  state : ParseState;
  l_starType : Z;
  l_specClass : Z;
  l_lumClass : Z;
  l_subclass : Z
}.

Definition set_state (s : ParseState) (l : locals) : locals :=
  mkLocals (i l) s (l_starType l) (l_specClass l) (l_lumClass l) (l_subclass l).
Definition set_type (v : Z) (l : locals) : locals :=
  mkLocals (i l) (state l) v (l_specClass l) (l_lumClass l) (l_subclass l).
Definition set_spec (v : Z) (l : locals) : locals :=
  mkLocals (i l) (state l) (l_starType l) v (l_lumClass l) (l_subclass l).
Definition set_lum (v : Z) (l : locals) : locals :=
  mkLocals (i l) (state l) (l_starType l) (l_specClass l) v (l_subclass l).
Definition set_sub (v : Z) (l : locals) : locals :=
  mkLocals (i l) (state l) (l_starType l) (l_specClass l) (l_lumClass l) v.
(** [i++] *)
Definition advance (l : locals) : locals :=
  mkLocals (u32 (i l + 1)) (state l) (l_starType l) (l_specClass l)
           (l_lumClass l) (l_subclass l).

Notation "l |> f" := (f l) (at level 45, left associativity, only parsing).

(** The character the loop looks at: [st[i]], or NUL past the end. *)
Definition current (st : string) (l : locals) : ascii :=
  if i l <? Z.of_nat (String.length st)
  then match String.get (Z.to_nat (i l)) st with
       | Some ch => ch
       | None => NUL
       end
  else NUL.

Definition ch_is (c : ascii) (ch : ascii) : bool := Ascii.eqb c ch.

(** One turn of the [while] loop: the [switch] on the state. *)
Definition step (st : string) (l : locals) : outcome locals :=
  let c := current st l in
  match state l with
  | BeginState =>
      if ch_is c "Q" then
        Ret (l |> set_type NeutronStar |> set_spec Spectral_Q
               |> set_state NeutronStarTypeState)
      else if ch_is c "X" then
        Ret (l |> set_type BlackHole |> set_state EndState)
      else if ch_is c "D" then
        Ret (l |> set_type WhiteDwarf |> set_spec Spectral_D
               |> set_state WDTypeState |> advance)
      else if ch_is c "s" then
        Ret (l |> set_state SubdwarfPrefixState |> advance)
      else if ch_is c "?" then
        Ret (l |> set_state EndState)
      else
        Ret (l |> set_state NormalStarClassState)
  | WolfRayetTypeState =>
      if ch_is c "C" then
        Ret (l |> set_spec Spectral_WC |> set_state NormalStarSubclassState
               |> advance)
      else if ch_is c "N" then
        Ret (l |> set_spec Spectral_WN |> set_state NormalStarSubclassState
               |> advance)
      else if ch_is c "O" then
        Ret (l |> set_spec Spectral_WO |> set_state NormalStarSubclassState
               |> advance)
      else
        Ret (l |> set_spec Spectral_WC |> set_state NormalStarSubclassState)
  | SubdwarfPrefixState =>
      if ch_is c "d" then
        Ret (l |> set_lum Lum_VI |> set_state NormalStarClassState |> advance)
      else
        Ret (l |> set_state EndState)
  | NormalStarClassState =>
      Ret ((if ch_is c "W" then l |> set_state WolfRayetTypeState
            else if ch_is c "O" then
              l |> set_spec Spectral_O |> set_state NormalStarSubclassState
            else if ch_is c "B" then
              l |> set_spec Spectral_B |> set_state NormalStarSubclassState
            else if ch_is c "A" then
              l |> set_spec Spectral_A |> set_state NormalStarSubclassState
            else if ch_is c "F" then
              l |> set_spec Spectral_F |> set_state NormalStarSubclassState
            else if ch_is c "G" then
              l |> set_spec Spectral_G |> set_state NormalStarSubclassState
            else if ch_is c "K" then
              l |> set_spec Spectral_K |> set_state NormalStarSubclassState
            else if ch_is c "M" then
              l |> set_spec Spectral_M |> set_state NormalStarSubclassState
            else if ch_is c "R" then
              l |> set_spec Spectral_R |> set_state NormalStarSubclassState
            else if ch_is c "S" then
              l |> set_spec Spectral_S |> set_state NormalStarSubclassState
            else if ch_is c "N" then
              l |> set_spec Spectral_N |> set_state NormalStarSubclassState
            else if ch_is c "L" then
              l |> set_spec Spectral_L |> set_state NormalStarSubclassState
            else if ch_is c "T" then
              l |> set_spec Spectral_T |> set_state NormalStarSubclassState
            else if ch_is c "Y" then
              l |> set_spec Spectral_Y |> set_state NormalStarSubclassState
            else if ch_is c "C" then
              l |> set_spec Spectral_C |> set_state NormalStarSubclassState
            else l |> set_state EndState)
           |> advance)
  | NormalStarSubclassState =>
      if isdigit c then
        Ret (l |> set_sub (digit_value c)
               |> set_state NormalStarSubclassDecimalState |> advance)
      else
        Ret (l |> set_state LumClassBeginState)
  | NormalStarSubclassDecimalState =>
      if ch_is c "." then
        Ret (l |> set_state NormalStarSubclassFinalState |> advance)
      else
        Ret (l |> set_state LumClassBeginState)
  | NormalStarSubclassFinalState =>
      Ret ((if isdigit c then l |> set_state LumClassBeginState
            else l |> set_state EndState)
           |> advance)
  | LumClassBeginState =>
      Ret ((if ch_is c "I" then l |> set_state LumClassIState
            else if ch_is c "V" then l |> set_state LumClassVState
            else l |> set_state EndState)
           |> advance)
  | LumClassIState =>
      Ret ((if ch_is c "I" then l |> set_state LumClassIIState
            else if ch_is c "V" then l |> set_lum Lum_IV |> set_state EndState
            else if ch_is c "a" then l |> set_state LumClassIaState
            else if ch_is c "b" then l |> set_lum Lum_Ib |> set_state EndState
            else if ch_is c "-" then l |> set_state LumClassIdashState
            else l |> set_lum Lum_Ib |> set_state EndState)
           |> advance)
  | LumClassIIState =>
      if ch_is c "I" then Ret (l |> set_lum Lum_III |> set_state EndState)
      else Ret (l |> set_lum Lum_II |> set_state EndState)
  | LumClassIdashState =>
      if ch_is c "a" then Ret (l |> set_state LumClassIaState)
      else if ch_is c "b" then Ret (l |> set_lum Lum_Ib |> set_state EndState)
      else Ret (l |> set_lum Lum_Ib |> set_state EndState)
  | LumClassIaState =>
      if ch_is c "0" then Ret (l |> set_lum Lum_Ia0 |> set_state EndState)
      else Ret (l |> set_lum Lum_Ia |> set_state EndState)
  | LumClassVState =>
      if ch_is c "I" then Ret (l |> set_lum Lum_VI |> set_state EndState)
      else Ret (l |> set_lum Lum_V |> set_state EndState)
  | WDTypeState =>
      Ret ((if ch_is c "A" then l |> set_spec Spectral_DA |> advance
            else if ch_is c "B" then l |> set_spec Spectral_DB |> advance
            else if ch_is c "C" then l |> set_spec Spectral_DC |> advance
            else if ch_is c "O" then l |> set_spec Spectral_DO |> advance
            else if ch_is c "Q" then l |> set_spec Spectral_DQ |> advance
            else if ch_is c "X" then l |> set_spec Spectral_DX |> advance
            else if ch_is c "Z" then l |> set_spec Spectral_DZ |> advance
            else l |> set_spec Spectral_D)
           |> set_state WDExtendedTypeState)
  | WDExtendedTypeState =>
      if ch_is c "A" || ch_is c "B" || ch_is c "C" || ch_is c "O" || ch_is c "Q"
         || ch_is c "Z" || ch_is c "X" || ch_is c "V" || ch_is c "P" || ch_is c "H"
         || ch_is c "E"
      then Ret (l |> advance)
      else Ret (l |> set_state WDSubclassState)
  | WDSubclassState =>
      Ret ((if isdigit c then l |> set_sub (digit_value c) |> advance else l)
           |> set_state EndState)
  | NeutronStarTypeState =>
      Ret ((if ch_is c "N" then l |> set_spec Spectral_QN |> advance
            else if ch_is c "P" then l |> set_spec Spectral_QP |> advance
            else if ch_is c "M" then l |> set_spec Spectral_QM |> advance
            else l |> set_spec Spectral_Q)
           |> set_state NeutronStarExtendedTypeState)
  | NeutronStarExtendedTypeState =>
      if ch_is c "P" || ch_is c "M" || ch_is c "N"
      then Ret (l |> advance)
      else Ret (l |> set_state NeutronStarSubclassState)
  | NeutronStarSubclassState =>
      Ret ((if isdigit c then l |> set_sub (digit_value c) |> advance else l)
           |> set_state EndState)
  | EndState | NormalStarState =>
      (* default: assert(0) *)
      _ <- assert_ false ;; Ret (l |> set_state EndState)
  end.

(** The [while (state != EndState)] loop, run for at most [fuel] turns;
    [None] when the turns are used up before the loop ends. *)
Fixpoint loop (fuel : nat) (st : string) (l : locals) : option (outcome locals) :=
  match state l with
  | EndState => Some (Ret l)
  | _ =>
      match fuel with
      | O => None
      | S fuel' =>
          match step st l with
          | Ret l' => loop fuel' st l'
          | AssertFail => Some AssertFail
          | Undef => Some Undef
          end
      end
  end.

Definition initial : locals :=
  mkLocals 0 BeginState NormalStar Spectral_Unknown Lum_Unknown Subclass_Unknown.

(** [return {starType, specClass, subclass, lumClass}] *)
Definition result (l : locals) : t :=
  mk (l_starType l) (l_specClass l) (l_subclass l) (l_lumClass l).

Definition parse_within (fuel : nat) (st : string) : option (outcome t) :=
  match loop fuel st initial with
  | Some (Ret l) => Some (Ret (result l))
  | Some AssertFail => Some AssertFail
  | Some Undef => Some Undef
  | None => None
  end.

(** [parse], with a number of turns that is enough for every string (see
    the section on the termination of the parser). *)
Definition parse (st : string) : option (outcome t) :=
  parse_within (String.length st + 12) st.

(** *** Termination measure of the parser *)






(** *** Decidable checks over the bit fields *)

Definition eqb_class (a b : t) : bool :=
  (starType a =? starType b) && (specClass a =? specClass b)
  && (subclass a =? subclass b) && (lumClass a =? lumClass b).

(** An object for the unpack functions to overwrite. *)
Definition blank : t := mk 0 0 0 0.

Definition roundtripV2_normal (sp su lu : Z) : bool :=
  let c := mk NormalStar sp su lu in
  let r := unpackV2 blank (packV2 c) in
  fst r && eqb_class (snd r) c.

Definition roundtripV1_normal (sp su lu : Z) : bool :=
  let c := mk NormalStar sp su lu in
  let r := unpackV1 blank (packV1 c) in
  (sp =? Spectral_Y) || (fst r && eqb_class (snd r) c).

Definition class_Y_becomes_Unknown (su lu : Z) : bool :=
  let r := unpackV1 blank (packV1 (mk NormalStar Spectral_Y su lu)) in
  fst r && eqb_class (snd r) (mk NormalStar Spectral_Unknown su lu).

Definition star_type_survives_V1 (ty sp su lu : Z) : bool :=
  starType (snd (unpackV1 blank (packV1 (mk ty sp su lu)))) =? ty.

Definition letters : string := "OBAFGKMRSNWW?LTYC".
Definition digits : string := "0123456789".

(** The texts [str] appends for the luminosity class. *)
Definition suffixes : list string :=
  [" I-a0"; " I-a"; " I-b"; " II"; " III"; " IV"; " V"; " VI"; ""]%string.

Definition parses_to (s : string) (c : t) : bool :=
  match parse s with
  | Some (Ret c') => eqb_class c' c
  | _ => false
  end.

Definition parse_recovers (sp su : Z) (suffix : string) : bool :=
  match String.get (Z.to_nat sp) letters, String.get (Z.to_nat su) digits with
  | Some letter, Some digit =>
      parses_to (String letter (String digit suffix))
                (mk NormalStar sp su Lum_Unknown)
  | _, _ => false
  end.

(** *** Ordering *)

(** [operator<] *)
Definition operator_lt (sc0 sc1 : t) : bool := packV2 sc0 <? packV2 sc1.

(** *** Checks and predicates for the further properties *)

Definition packV2_weighs (sp su lu : Z) : bool :=
  packV2 (mk NormalStar sp su lu) =? 256 * sp + 16 * su + lu.

Definition repackV2 (st : Z) : bool :=
  packV2 (snd (unpackV2 blank st)) =? st.

Definition repackV1 (st : Z) : bool :=
  packV1 (snd (unpackV1 blank st)) =? st.

(** What the unpack functions can leave in the object when they return
    [true]: the cases of their [switch]. *)
Definition unpacked (c : t) : Prop :=
  (starType c = NormalStar /\ 0 <= specClass c < 32 /\
   0 <= subclass c < 16 /\ 0 <= lumClass c < 16)
  \/ (starType c = WhiteDwarf /\
      Spectral_DA <= specClass c < Spectral_DA + WDClassCount /\
      0 <= subclass c < 16 /\ lumClass c = Lum_Unknown)
  \/ (starType c = NeutronStar /\
      specClass c = Spectral_Q + subclass c /\
      0 <= subclass c < NeutronStarClassCount /\ lumClass c = Lum_Unknown)
  \/ (starType c = BlackHole /\ specClass c = Spectral_Unknown /\
      subclass c = Subclass_Unknown /\ lumClass c = Lum_Unknown).






(** The spellings the states of [parse] read for the spectral class of a
    normal star and for the luminosity class, with the value each one
    gives. *)
Definition class_texts : list (string * Z) :=
  [("O", Spectral_O); ("B", Spectral_B); ("A", Spectral_A); ("F", Spectral_F);
   ("G", Spectral_G); ("K", Spectral_K); ("M", Spectral_M); ("R", Spectral_R);
   ("S", Spectral_S); ("N", Spectral_N); ("L", Spectral_L); ("T", Spectral_T);
   ("Y", Spectral_Y); ("C", Spectral_C);
   ("WC", Spectral_WC); ("WN", Spectral_WN); ("WO", Spectral_WO)]%string.

Definition luminosity_texts : list (string * Z) :=
  [("Ia0", Lum_Ia0); ("Ia", Lum_Ia); ("Ib", Lum_Ib); ("II", Lum_II);
   ("III", Lum_III); ("IV", Lum_IV); ("V", Lum_V); ("VI", Lum_VI);
   ("", Lum_Unknown)]%string.

(** The character of the digit [d]. *)
Definition digit_char (d : Z) : ascii := ascii_of_nat (Z.to_nat (48 + d)).

Definition parse_reads (name : string * Z) (d : Z) (lum : string * Z) : bool :=
  parses_to (fst name ++ String (digit_char d) (fst lum))%string
            (mk NormalStar (snd name) d (snd lum))
  && forallb (fun d' =>
                parses_to (fst name ++ String (digit_char d)
                             (String "." (String (digit_char d') (fst lum))))%string
                          (mk NormalStar (snd name) d (snd lum)))
             (range 10).

(** *** How far the parser reads *)

(** The loop of [parse] run on [st] as [loop] runs it, with a test at each
    turn that the character looked at is one of the string: [true] when the
    loop ends without looking at the terminating NUL or past it. *)
Fixpoint loop_inside (fuel : nat) (st : string) (l : locals) : bool :=
  match state l with
  | EndState => true
  | _ =>
      match fuel with
      | O => false
      | S fuel' =>
          (0 <=? i l) && (i l <? Z.of_nat (String.length st))
          && match step st l with
             | Ret l' => loop_inside fuel' st l'
             | _ => false
             end
      end
  end.

Definition parse_stops_inside (s : string) : bool :=
  loop_inside (String.length s + 12) s initial.

(** The spellings of a luminosity class after which [parse] is done whatever
    the next character is. *)
Definition closed_luminosity_texts : list (string * Z) :=
  [("Ia0", Lum_Ia0); ("Ib", Lum_Ib); ("III", Lum_III); ("IV", Lum_IV);
   ("VI", Lum_VI)]%string.

Definition parse_stops (name : string * Z) (d : Z) (lum : string * Z) : bool :=
  parse_stops_inside (fst name ++ String (digit_char d) (fst lum))%string
  && parses_to (fst name ++ String (digit_char d) (fst lum))%string
               (mk NormalStar (snd name) d (snd lum)).

(** The spellings [WDTypeState] reads for the class of a white dwarf. *)
Definition white_dwarf_texts : list (string * Z) :=
  [("DA", Spectral_DA); ("DB", Spectral_DB); ("DC", Spectral_DC);
   ("DO", Spectral_DO); ("DQ", Spectral_DQ); ("DX", Spectral_DX);
   ("DZ", Spectral_DZ)]%string.

(** The test of [WDExtendedTypeState]. *)
Definition extension_letter (c : ascii) : bool :=
  ch_is c "A" || ch_is c "B" || ch_is c "C" || ch_is c "O" || ch_is c "Q"
  || ch_is c "Z" || ch_is c "X" || ch_is c "V" || ch_is c "P" || ch_is c "H"
  || ch_is c "E".

Fixpoint extension_letters (s : string) : bool :=
  match s with
  | EmptyString => true
  | String c s' => extension_letter c && extension_letters s'
  end.

Definition digit_char_read (d : Z) : bool :=
  isdigit (digit_char d) && (digit_value (digit_char d) =? d)
  && negb (extension_letter (digit_char d)).

(** The local variables of [parse] on its way through a white dwarf. *)
Definition white_dwarf_at (k : Z) (s : ParseState) (sp su : Z) : locals :=
  mkLocals k s WhiteDwarf sp Lum_Unknown su.

Definition parse_reads_subdwarf (name : string * Z) (d : Z) (lum : string * Z)
    : bool :=
  parses_to ("sd" ++ fst name ++ String (digit_char d) (fst lum))%string
            (mk NormalStar (snd name) d
                (if snd lum =? Lum_Unknown then Lum_VI else snd lum)).

(** Every character. *)
Definition characters : list ascii := map ascii_of_nat (seq 0 256).

Definition parse_drops_s (c : ascii) : bool :=
  ch_is c "d"
  || (parse_stops_inside (String "s" (String c EmptyString))
      && parses_to (String "s" (String c EmptyString))
                   (mk NormalStar Spectral_Unknown Subclass_Unknown
                       Lum_Unknown)).

End StellarClass.


(** ** Doubles *)

(** The [double] whose object representation is the 64-bit pattern [b]
    (sign, eleven exponent bits, fifty-two fraction bits). *)
Definition double_of_bits (b : Z) : float :=
  let s := Z.testbit b 63 in
  let e := Z.land (Z.shiftr b 52) 0x7ff in
  let m := Z.land b (2 ^ 52 - 1) in
  SF2Prim
    (if e =? 0 then
       match m with
       | Zpos p => S754_finite s p (-1074)
       | _ => S754_zero s
       end
     else if e =? 0x7ff then
       (if m =? 0 then S754_infinity s else S754_nan)
     else
       match m + 2 ^ 52 with
       | Zpos p => S754_finite s p (e - 1075)
       | _ => S754_zero s
       end).

(** The integer part of a double, rounding toward zero; [None] for an
    infinity or a NaN. *)
Definition truncate (x : float) : option Z :=
  match Prim2SF x with
  | S754_zero _ => Some 0
  | S754_finite s m e =>
      let a := if 0 <=? e then Zpos m * 2 ^ e else Zpos m / 2 ^ (- e) in
      Some (if s then - a else a)
  | S754_infinity _ | S754_nan => None
  end.

(** [(unsigned int) x]: undefined unless the truncated value is
    representable. *)
Definition to_uint32 (x : float) : outcome Z :=
  match truncate x with
  | Some z => if (0 <=? z) && (z <? 2 ^ 32) then Ret z else Undef
  | None => Undef
  end.

(** [(int) x] *)
Definition to_int32 (x : float) : outcome Z :=
  match truncate x with
  | Some z => if (- 2 ^ 31 <=? z) && (z <? 2 ^ 31) then Ret z else Undef
  | None => Undef
  end.

(** [(double) n] for an [int] or an [unsigned int], which is exact. *)
Definition of_int (n : Z) : float :=
  if n <? 0 then PrimFloat.opp (PrimFloat.of_uint63 (Uint63.of_Z (- n)))
  else PrimFloat.of_uint63 (Uint63.of_Z n).

(** ** Arrays *)

(** [a[k]] for reading, [a[k] = v] for writing: undefined outside the
    array. *)
Definition array_get {A : Type} (a : list A) (k : Z) : outcome A :=
  if k <? 0 then Undef
  else match nth_error a (Z.to_nat k) with
       | Some v => Ret v
       | None => Undef
       end.

Fixpoint list_set {A : Type} (a : list A) (k : nat) (v : A) : list A :=
  match a, k with
  | [], _ => []
  | _ :: a', O => v :: a'
  | x :: a', S k' => x :: list_set a' k' v
  end.

Definition array_set {A : Type} (a : list A) (k : Z) (v : A) : outcome (list A) :=
  if (0 <=? k) && (k <? Z.of_nat (length a))
  then Ret (list_set a (Z.to_nat k) v)
  else Undef.

(** ** Input streams *)

(** A [std::istream] over a finite sequence of bytes: what is left to read,
    and whether [good()] holds. *)
Record istream : Type := mkStream {
  rest : list byte;
  good : bool
}.

(** [in.read(p, n)]: on a stream that is not good nothing is read; a short
    read takes what is left and sets [eofbit] and [failbit].  The bytes not
    read are indeterminate in the destination; they are zero here, and
    [load] never lets them reach its result. *)
Definition read (n : nat) (s : istream) : list byte * istream :=
  if good s then
    if (n <=? length (rest s))%nat
    then (firstn n (rest s), mkStream (skipn n (rest s)) true)
    else (rest s ++ repeat x00 (n - length (rest s)), mkStream [] false)
  else (repeat x00 n, s).

(** [in.ignore(n)] for a [std::streamsize] [n]: nothing is skipped when [n]
    is not positive; reaching the end before [n] characters sets [eofbit]. *)
Definition ignore (n : Z) (s : istream) : istream :=
  if good s then
    if n <=? 0 then s
    else if n <=? Z.of_nat (length (rest s))
         then mkStream (skipn (Z.to_nat n) (rest s)) true
         else mkStream [] false
  else s.

(** The conversion of a [size_t] argument to [std::streamsize]. *)
Definition to_streamsize (n : Z) : Z :=
  let n := u64 n in if n <? 2 ^ 63 then n else n - 2 ^ 64.

(** The value of a little-endian sequence of bytes: an object of the host,
    which is taken to be little-endian. *)
Fixpoint le_value (bs : list byte) : Z :=
  match bs with
  | [] => 0
  | b :: bs' => Z.of_N (Byte.to_N b) + 2 ^ 8 * le_value bs'
  end.

(** Modelled from the spec: celutil/bytes.h is not among the sources;
    [bswap_32] and [bswap_double] reverse the byte order of a 32-bit integer
    and of the eight bytes of a double, here of its 64-bit pattern. *)
Definition bswap_32 (x : Z) : Z :=
  Z.lor (Z.lor (Z.lor (Z.shiftl (Z.land x 0xff) 24)
                      (Z.shiftl (Z.land (Z.shiftr x 8) 0xff) 16))
               (Z.shiftl (Z.land (Z.shiftr x 16) 0xff) 8))
        (Z.land (Z.shiftr x 24) 0xff).

Definition bswap_double (x : Z) : Z :=
  Z.lor (Z.shiftl (bswap_32 (Z.land x 0xffffffff)) 32)
        (bswap_32 (Z.land (Z.shiftr x 32) 0xffffffff)).

(** [readUint] and [readDouble]; a double travels as its 64-bit pattern
    until its bytes are in the order of the host. *)
Definition readUint (s : istream) (swap : bool) : Z * istream :=
  let (bs, s') := read 4 s in
  let ret := le_value bs in
  (if swap then bswap_32 ret else ret, s').

Definition readDouble (s : istream) (swap : bool) : float * istream :=
  let (bs, s') := read 8 s in
  let d := le_value bs in
  (double_of_bits (if swap then bswap_double d else d), s').

Module JPLEphemeris.

Local Open Scope float_scope.
Local Open Scope Z_scope.

(** *** Constants *)

Definition NConstants : Z := 400.
Definition ConstantNameLength : Z := 6.
Definition MaxChebyshevCoeffs : Z := 32.
Definition LabelSize : Z := 84.
Definition INPOP_DE_COMPATIBLE : Z := 100.
Definition DE200 : Z := 200.

(** *** The declarations of jpleph.h *)

(** Modelled from the spec: jpleph.h is not among the sources.  The items
    of an ephemeris in the order the specification lists them: the eleven
    bodies and the nutations have coefficients in [coeffInfo], the librations
    have a descriptor of their own, and the barycenter of the solar system
    and the Earth are computed. *)
Inductive JPLEphemItem : Type :=
| JPLEph_Mercury
| JPLEph_Venus
| JPLEph_EarthMoonBary
| JPLEph_Mars
| JPLEph_Jupiter
| JPLEph_Saturn
| JPLEph_Uranus
| JPLEph_Neptune
| JPLEph_Pluto
| JPLEph_Moon
| JPLEph_Sun
| JPLEph_Nutation
| JPLEph_Libration
| JPLEph_SSB
| JPLEph_Earth.

(** The value of an enumerator, which is what indexes [coeffInfo]. *)
Definition item_value (p : JPLEphemItem) : Z :=
  match p with
  | JPLEph_Mercury => 0
  | JPLEph_Venus => 1
  | JPLEph_EarthMoonBary => 2
  | JPLEph_Mars => 3
  | JPLEph_Jupiter => 4
  | JPLEph_Saturn => 5
  | JPLEph_Uranus => 6
  | JPLEph_Neptune => 7
  | JPLEph_Pluto => 8
  | JPLEph_Moon => 9
  | JPLEph_Sun => 10
  | JPLEph_Nutation => 11
  | JPLEph_Libration => 12
  | JPLEph_SSB => 13
  | JPLEph_Earth => 14
  end.

Definition JPLEph_NItems : Z := 12.

Record JPLECoeff : Type := mkCoeff {
  offset : Z;
  nCoeffs : Z;
  nGranules : Z
}.

(** Modelled from the spec: one record of the file, its two dates and its
    coefficients (without the dates). *)
Record JPLEphRecord : Type := mkRecord {
  t0 : float;
  t1 : float;
  coeffs : list float
}.

(** Modelled from the spec: the data members of the class, as [load] and
    [getPlanetPosition] use them. *)
Record t : Type := mkEphemeris {
  DENum : Z;
  startDate : float;
  endDate : float;
  daysPerInterval : float;
  au : float;
  earthMoonMassRatio : float;
  swapBytes : bool;
  recordSize : Z;
  coeffInfo : list JPLECoeff;
  librationCoeffInfo : JPLECoeff;
  records : list JPLEphRecord
}.

Definition Vector3d : Type := (float * float * float)%type.

Definition v3_zero : Vector3d := (0%float, 0%float, 0%float).

Definition v3_add (a b : Vector3d) : Vector3d :=
  let '(ax, ay, az) := a in
  let '(bx, b_y, bz) := b in
  ((ax + bx)%float, (ay + b_y)%float, (az + bz)%float).

Definition v3_sub (a b : Vector3d) : Vector3d :=
  let '(ax, ay, az) := a in
  let '(bx, b_y, bz) := b in
  ((ax - bx)%float, (ay - b_y)%float, (az - bz)%float).

Definition v3_scale (a : Vector3d) (k : float) : Vector3d :=
  let '(ax, ay, az) := a in
  ((ax * k)%float, (ay * k)%float, (az * k)%float).

(** *** getPlanetPosition *)

(** The clamp of the time to the span of the ephemeris. *)
Definition clamp (e : t) (tjd : float) : float :=
  if PrimFloat.ltb tjd (startDate e) then startDate e
  else if PrimFloat.ltb (endDate e) tjd then endDate e
  else tjd.

(** The record the clamped time [tjd] selects: the number computed from the
    time, and the number after the test against [records.size()] (a [size_t],
    narrowed to [unsigned int] by the assignment). *)
Definition record_number_of_time (e : t) (tjd : float) : outcome Z :=
  to_uint32 ((tjd - startDate e) / daysPerInterval e)%float.

Definition record_number (e : t) (tjd : float) : outcome Z :=
  recNo <- record_number_of_time e tjd ;;
  let size := Z.of_nat (length (records e)) in
  Ret (if size <=? recNo then u32 (u64 (size - 1)) else recNo).

(** The inner loop over [j = first, first + 1, ...], as long as
    [j < nCoeffs], for [turns] turns at most: the Chebyshev polynomial
    [cc[j]] and the sum of component [i]. *)
Fixpoint chebyshev_terms (turns : nat) (cf : list float) (base : Z)
    (n : Z) (u : float) (i : Z) (j : Z) (cc : list float) (sum : float)
    : outcome (list float * float) :=
  match turns with
  | O => Ret (cc, sum)
  | S turns' =>
      if j <? n then
        c1 <- array_get cc (j - 1) ;;
        c2 <- array_get cc (j - 2) ;;
        cc' <- array_set cc j (2 * u * c1 - c2)%float ;;
        a <- array_get cf (base + u32 (i * n + j)) ;;
        cj <- array_get cc' j ;;
        chebyshev_terms turns' cf base n u i (j + 1) cc' (sum + a * cj)%float
      else Ret (cc, sum)
  end.

(** One turn of the outer loop: component [i]. *)
Definition chebyshev_component (cf : list float) (base : Z) (n : Z)
    (u : float) (i : Z) (cc : list float) : outcome (list float * float) :=
  cc <- array_set cc 0 1%float ;;
  cc <- array_set cc 1 u ;;
  a0 <- array_get cf (base + u32 (i * n)) ;;
  a1 <- array_get cf (base + u32 (i * n + 1)) ;;
  chebyshev_terms (Z.to_nat (n - 2)) cf base n u i 2 cc (a0 + a1 * u)%float.

(** The body of [getPlanetPosition] for an item that is neither the
    barycenter of the solar system nor the Earth. *)
Definition stored_position (e : t) (planet : JPLEphemItem) (tjd : float)
    : outcome Vector3d :=
  let tjd := clamp e tjd in
  recNo <- record_number e tjd ;;
  rec <- array_get (records e) recNo ;;
  info <- array_get (coeffInfo e) (item_value planet) ;;
  _ <- assert_ (1 <=? nGranules info) ;;
  _ <- assert_ (nGranules info <=? 32) ;;
  _ <- assert_ (nCoeffs info <=? MaxChebyshevCoeffs) ;;
  bu <- (if nGranules info =? u32 (-1) then
           Ret (offset info,
                (2 * (tjd - t0 rec) / daysPerInterval e - 1)%float)
         else
           let daysPerGranule :=
             (daysPerInterval e / of_int (nGranules info))%float in
           granule <- to_int32 ((tjd - t0 rec) / daysPerGranule)%float ;;
           let granuleStartDate :=
             (t0 rec + daysPerGranule * of_int granule)%float in
           Ret (offset info + u32 (u32 granule * nCoeffs info * 3),
                (2 * (tjd - granuleStartDate) / daysPerGranule - 1)%float)) ;;
  let '(base, u) := bu in
  let cc := repeat 0%float (Z.to_nat MaxChebyshevCoeffs) in
  r0 <- chebyshev_component (coeffs rec) base (nCoeffs info) u 0 cc ;;
  r1 <- chebyshev_component (coeffs rec) base (nCoeffs info) u 1 (fst r0) ;;
  r2 <- chebyshev_component (coeffs rec) base (nCoeffs info) u 2 (fst r1) ;;
  Ret (snd r0, snd r1, snd r2).

Definition getPlanetPosition (e : t) (planet : JPLEphemItem) (tjd : float)
    : outcome Vector3d :=
  match planet with
  | JPLEph_SSB => Ret v3_zero
  | JPLEph_Earth =>
      embPos <- stored_position e JPLEph_EarthMoonBary tjd ;;
      moonPos <- stored_position e JPLEph_Moon tjd ;;
      Ret (v3_sub embPos
             (v3_scale moonPos (1 / (earthMoonMassRatio e + 1))%float))
  | _ => stored_position e planet tjd
  end.

(** *** load *)

(** The fields of [JPLEFileHeader] that [load] uses, as the host reads them
    from the packed structure: integers in the byte order of the host, and
    doubles as their 64-bit patterns. *)
Record JPLEFileHeader : Type := mkHeader {
  fh_startDate : Z;
  fh_endDate : Z;
  fh_daysPerInterval : Z;
  fh_nConstants : Z;
  fh_au : Z;
  fh_earthMoonMassRatio : Z;
  fh_coeffInfo : list JPLECoeff;
  fh_deNum : Z;
  fh_librationCoeffInfo : JPLECoeff
}.

(** [sizeof(JPLEFileHeader)], the structure being packed. *)
Definition header_size : Z :=
  3 * LabelSize + NConstants * ConstantNameLength + 3 * 8 + 4 + 8 + 8
  + JPLEph_NItems * 12 + 4 + 12.

Definition field (off len : Z) (bs : list byte) : Z :=
  le_value (firstn (Z.to_nat len) (skipn (Z.to_nat off) bs)).

Definition coeff_field (off : Z) (bs : list byte) : JPLECoeff :=
  mkCoeff (field off 4 bs) (field (off + 4) 4 bs) (field (off + 8) 4 bs).

(** The header found in the first [header_size] bytes. *)
Definition decode_header (bs : list byte) : JPLEFileHeader :=
  let dates := 3 * LabelSize + NConstants * ConstantNameLength in
  let infos := dates + 3 * 8 + 4 + 8 + 8 in
  mkHeader
    (field dates 8 bs)
    (field (dates + 8) 8 bs)
    (field (dates + 16) 8 bs)
    (field (dates + 24) 4 bs)
    (field (dates + 28) 8 bs)
    (field (dates + 36) 8 bs)
    (map (fun i => coeff_field (infos + 12 * Z.of_nat i) bs)
         (seq 0 (Z.to_nat JPLEph_NItems)))
    (field (infos + 12 * JPLEph_NItems) 4 bs)
    (coeff_field (infos + 12 * JPLEph_NItems + 4) bs).

Definition MAYBE_SWAP_DOUBLE (swapBytes : bool) (d : Z) : float :=
  double_of_bits (if swapBytes then bswap_double d else d).

Definition MAYBE_SWAP_UINT32 (swapBytes : bool) (u : Z) : Z :=
  if swapBytes then bswap_32 u else u.

(** The choice of the byte order from [deNum], read in the byte order of the
    host: the flag [swapBytes] and the number kept as [DENum], or [None] where
    [load] returns [nullptr]. *)
Definition detect_byte_order (deNum : Z) : option (bool * Z) :=
  let deNum2 := bswap_32 deNum in
  if deNum =? INPOP_DE_COMPATIBLE then Some (false, deNum)
  else if deNum2 =? INPOP_DE_COMPATIBLE then Some (true, deNum2)
  else if (2 ^ 15 <? deNum) && (DE200 <=? deNum2) then Some (true, deNum2)
  else if (deNum <=? 2 ^ 15) && (DE200 <=? deNum) then Some (false, deNum)
  else None.

(** The loop over the items: their descriptors and the record size so far. *)
Fixpoint load_coeffInfo (swapBytes : bool) (i : Z) (infos : list JPLECoeff)
    (recordSize : Z) : list JPLECoeff * Z :=
  match infos with
  | [] => ([], recordSize)
  | c :: infos' =>
      let info :=
        mkCoeff (u32 (MAYBE_SWAP_UINT32 swapBytes (offset c) - 3))
                (MAYBE_SWAP_UINT32 swapBytes (nCoeffs c))
                (MAYBE_SWAP_UINT32 swapBytes (nGranules c)) in
      let nRecords := if i =? JPLEph_NItems - 1 then 2 else 3 in
      let recordSize :=
        u32 (recordSize + nCoeffs info * nGranules info * nRecords) in
      let (rest, recordSize) :=
        load_coeffInfo swapBytes (i + 1) infos' recordSize in
      (info :: rest, recordSize)
  end.

Fixpoint read_doubles (n : nat) (s : istream) (swap : bool)
    : list float * istream :=
  match n with
  | O => ([], s)
  | S n' =>
      let (d, s1) := readDouble s swap in
      let (ds, s2) := read_doubles n' s1 swap in
      (d :: ds, s2)
  end.

(** The loop over the records; [None] where [load] deletes the ephemeris
    and returns [nullptr]. *)
Fixpoint read_records (n : nat) (s : istream) (swap : bool) (count : Z)
    : option (list JPLEphRecord) :=
  match n with
  | O => Some []
  | S n' =>
      let (rt0, s1) := readDouble s swap in
      let (rt1, s2) := readDouble s1 swap in
      let (cs, s3) := read_doubles (Z.to_nat count) s2 swap in
      if good s3 then
        match read_records n' s3 swap count with
        | Some rs => Some (mkRecord rt0 rt1 cs :: rs)
        | None => None
        end
      else None
  end.

(** [load]: [Ret None] is the null pointer. *)
Definition load (s : istream) : outcome (option t) :=
  let (bytes, s) := read (Z.to_nat header_size) s in
  if negb (good s) then Ret None
  else
    let fh := decode_header bytes in
    match detect_byte_order (fh_deNum fh) with
    | None => Ret None
    | Some (swapBytes, deNum) =>
        let startDate := MAYBE_SWAP_DOUBLE swapBytes (fh_startDate fh) in
        let endDate := MAYBE_SWAP_DOUBLE swapBytes (fh_endDate fh) in
        let daysPerInterval :=
          MAYBE_SWAP_DOUBLE swapBytes (fh_daysPerInterval fh) in
        let au := MAYBE_SWAP_DOUBLE swapBytes (fh_au fh) in
        let earthMoonMassRatio :=
          MAYBE_SWAP_DOUBLE swapBytes (fh_earthMoonMassRatio fh) in
        let (coeffInfo, recordSize) :=
          load_coeffInfo swapBytes 0 (fh_coeffInfo fh) 0 in
        let lib := fh_librationCoeffInfo fh in
        let librationCoeffInfo :=
          mkCoeff (MAYBE_SWAP_UINT32 swapBytes (offset lib))
                  (MAYBE_SWAP_UINT32 swapBytes (nCoeffs lib))
                  (MAYBE_SWAP_UINT32 swapBytes (nGranules lib)) in
        let recordSize :=
          u32 (recordSize
               + nCoeffs librationCoeffInfo * nGranules librationCoeffInfo * 3) in
        let recordSize := u32 (recordSize + 2) in
        let (recordSize, s) :=
          if deNum =? INPOP_DE_COMPATIBLE then
            let (recordSize, s) := readUint s swapBytes in
            (recordSize,
             ignore (to_streamsize (u32 (recordSize * 8) - header_size - 4)) s)
          else
            (recordSize,
             ignore (to_streamsize (u32 (recordSize * 8) - header_size)) s) in
        let s := ignore (u32 (recordSize * 8)) s in
        if negb (good s) then Ret None
        else
          nRecords <-
            to_uint32 ((endDate - startDate) / daysPerInterval)%float ;;
          match read_records (Z.to_nat nRecords) s swapBytes
                             (u32 (recordSize - 2)) with
          | None => Ret None
          | Some records =>
              Ret (Some (mkEphemeris deNum startDate endDate daysPerInterval
                           au earthMoonMassRatio swapBytes recordSize
                           coeffInfo librationCoeffInfo records))
          end
    end.

(** *** The rules of the specification for the byte order *)

(** The five rules in the words of the specification: for the number read
    in the byte order of the host, the flag and the number a rule gives, or
    no result where the format is invalid.  Each rule applies when the ones
    before it do not. *)
Inductive byte_order_rule (deNum : Z) : option (bool * Z) -> Prop :=
| rule_INPOP_same :
    deNum = 100 ->
    byte_order_rule deNum (Some (false, 100))
| rule_INPOP_swap :
    deNum <> 100 -> bswap_32 deNum = 100 ->
    byte_order_rule deNum (Some (true, 100))
| rule_DE_swap :
    deNum <> 100 -> bswap_32 deNum <> 100 ->
    deNum > 2 ^ 15 -> bswap_32 deNum >= 200 ->
    byte_order_rule deNum (Some (true, bswap_32 deNum))
| rule_DE_same :
    deNum <> 100 -> bswap_32 deNum <> 100 ->
    ~ (deNum > 2 ^ 15 /\ bswap_32 deNum >= 200) ->
    deNum <= 2 ^ 15 -> deNum >= 200 ->
    byte_order_rule deNum (Some (false, deNum))
| rule_invalid :
    deNum <> 100 -> bswap_32 deNum <> 100 ->
    ~ (deNum > 2 ^ 15 /\ bswap_32 deNum >= 200) ->
    ~ (deNum <= 2 ^ 15 /\ deNum >= 200) ->
    byte_order_rule deNum None.

(** *** A check over the numbers of the ephemerides *)

(** For the number [d] of an ephemeris, [detect_byte_order] finds it both
    as the host writes it and with its bytes reversed. *)
Definition detect_both_ways (d : Z) : bool :=
  match detect_byte_order d, detect_byte_order (bswap_32 d) with
  | Some (false, d1), Some (true, d2) => (d1 =? d) && (d2 =? d)
  | _, _ => false
  end.

(** *** The header of a stream *)

(** The header [load] finds at the start of the stream [s]. *)
Definition file_header (s : istream) : JPLEFileHeader :=
  decode_header (fst (read (Z.to_nat header_size) s)).

(** The number of records [load] computes from a header read with the flag
    [swap]: [(unsigned int) ((endDate - startDate) / daysPerInterval)]. *)
Definition records_of_header (swap : bool) (fh : JPLEFileHeader) : outcome Z :=
  to_uint32 ((MAYBE_SWAP_DOUBLE swap (fh_endDate fh)
              - MAYBE_SWAP_DOUBLE swap (fh_startDate fh))
             / MAYBE_SWAP_DOUBLE swap (fh_daysPerInterval fh))%float.

End JPLEphemeris.

(** ** Ephemeris files for the examples *)

Module ExampleFiles.

Import JPLEphemeris.

(** [n] bytes of [v], least significant first. *)
Fixpoint le_bytes (n : nat) (v : Z) : list byte :=
  match n with
  | O => []
  | S n' =>
      match Byte.of_N (Z.to_N (v mod 2 ^ 8)) with
      | Some b => b
      | None => x00
      end :: le_bytes n' (v / 2 ^ 8)
  end.

Definition coeff_bytes (c : JPLECoeff) : list byte :=
  le_bytes 4 (offset c) ++ le_bytes 4 (nCoeffs c) ++ le_bytes 4 (nGranules c).

(** The bytes of a header on a little-endian host, with blank labels and
    constant names. *)
Definition header_bytes (fh : JPLEFileHeader) : list byte :=
  repeat x20 (Z.to_nat (3 * LabelSize + NConstants * ConstantNameLength))
  ++ le_bytes 8 (fh_startDate fh)
  ++ le_bytes 8 (fh_endDate fh)
  ++ le_bytes 8 (fh_daysPerInterval fh)
  ++ le_bytes 4 (fh_nConstants fh)
  ++ le_bytes 8 (fh_au fh)
  ++ le_bytes 8 (fh_earthMoonMassRatio fh)
  ++ concat (map coeff_bytes (fh_coeffInfo fh))
  ++ le_bytes 4 (fh_deNum fh)
  ++ coeff_bytes (fh_librationCoeffInfo fh).

(** A DE file: the header, the padding up to one record, the record of the
    constants, and the data records, each a list of 64-bit patterns. *)
Definition de_file (fh : JPLEFileHeader) (recordSize : Z)
    (data : list (list Z)) : list byte :=
  header_bytes fh
  ++ repeat x00 (Z.to_nat (recordSize * 8 - header_size))
  ++ repeat x00 (Z.to_nat (recordSize * 8))
  ++ concat (map (fun r => concat (map (le_bytes 8) r)) data).

(** Descriptors of [n] coefficients in [g] granules for every item, laid
    out one after the other from the 1-based offset 3. *)
Fixpoint uniform_infos (count : nat) (off n g : Z) : list JPLECoeff :=
  match count with
  | O => []
  | S count' => mkCoeff off n g :: uniform_infos count' (off + n * g * 3) n g
  end.

(** The 64-bit patterns of 0, 1, 0.1, 81.25 and 384400. *)
Definition bits_0 : Z := 0.
Definition bits_1 : Z := 0x3FF0000000000000.
Definition bits_tenth : Z := 0x3FB999999999999A.
Definition bits_81_25 : Z := 0x4054500000000000.
Definition bits_384400 : Z := 0x4117764000000000.

(** A record of [n] doubles: the two dates, then zeros, but for the
    coefficients given with their position. *)
Fixpoint with_coefficients (r : list Z) (cs : list (nat * Z)) : list Z :=
  match cs with
  | [] => r
  | (k, v) :: cs' => with_coefficients (list_set r k v) cs'
  end.

Definition data_record (n : nat) (rt0 rt1 : Z) (cs : list (nat * Z))
    : list Z :=
  rt0 :: rt1 :: with_coefficients (repeat 0 (n - 2)) cs.

(** A DE405 file over the days 0 to 1 in one record, with thirteen
    coefficients in one granule for every item: the barycenter of the Earth
    and the Moon stays at x = 0.1 km, the Moon at x = 384400 km from the
    Earth, and the mass ratio is 81.25. *)
Definition small_header : JPLEFileHeader :=
  mkHeader bits_0 bits_1 bits_1 0 bits_1 bits_81_25
           (uniform_infos 12 3 13 1) 405 (mkCoeff 458 13 1).

Definition small_file : list byte :=
  de_file small_header 496
          [data_record 496 bits_0 bits_1 [(78%nat, bits_tenth); (351%nat, bits_384400)]].

(** The same file with descriptors that break the bounds asserted by
    [getPlanetPosition]: 33 coefficients for Mercury and no granule for
    Venus. *)
Definition unchecked_header : JPLEFileHeader :=
  mkHeader bits_0 bits_1 bits_1 0 bits_1 bits_81_25
           (mkCoeff 3 33 4 :: mkCoeff 399 13 0 :: uniform_infos 10 399 13 1)
           405 (mkCoeff 776 13 1).

Definition unchecked_file : list byte :=
  de_file unchecked_header 814 [data_record 814 bits_0 bits_1 []].

(** The ephemeris [load] returns for [small_file]. *)
Definition small_ephemeris : t :=
  mkEphemeris 405 0%float 1%float 1%float 1%float 81.25%float false 496
    (uniform_infos 12 0 13 1) (mkCoeff 458 13 1)
    [mkRecord 0%float 1%float
       (map double_of_bits
            (with_coefficients (repeat 0 494)
               [(78%nat, bits_tenth); (351%nat, bits_384400)]))].

(** The ephemeris [load] returns for [unchecked_file]. *)
Definition unchecked_ephemeris : t :=
  mkEphemeris 405 0%float 1%float 1%float 1%float 81.25%float false 814
    (mkCoeff 0 33 4 :: mkCoeff 396 13 0 :: uniform_infos 10 396 13 1)
    (mkCoeff 776 13 1)
    [mkRecord 0%float 1%float (repeat 0%float 812)].

(** [n] bytes of [v], most significant first. *)
Definition be_bytes (n : nat) (v : Z) : list byte := rev (le_bytes n v).

(** The bytes of a header whose numbers are written by [enc]. *)
Definition header_bytes_by (enc : nat -> Z -> list byte) (fh : JPLEFileHeader)
    : list byte :=
  repeat x20 (Z.to_nat (3 * LabelSize + NConstants * ConstantNameLength))
  ++ enc 8%nat (fh_startDate fh)
  ++ enc 8%nat (fh_endDate fh)
  ++ enc 8%nat (fh_daysPerInterval fh)
  ++ enc 4%nat (fh_nConstants fh)
  ++ enc 8%nat (fh_au fh)
  ++ enc 8%nat (fh_earthMoonMassRatio fh)
  ++ concat (map (fun c => enc 4%nat (offset c) ++ enc 4%nat (nCoeffs c)
                           ++ enc 4%nat (nGranules c)) (fh_coeffInfo fh))
  ++ enc 4%nat (fh_deNum fh)
  ++ enc 4%nat (offset (fh_librationCoeffInfo fh))
  ++ enc 4%nat (nCoeffs (fh_librationCoeffInfo fh))
  ++ enc 4%nat (nGranules (fh_librationCoeffInfo fh)).

(** A DE file written by [enc]. *)
Definition de_file_by (enc : nat -> Z -> list byte) (fh : JPLEFileHeader)
    (recordSize : Z) (data : list (list Z)) : list byte :=
  header_bytes_by enc fh
  ++ repeat x00 (Z.to_nat (recordSize * 8 - header_size))
  ++ repeat x00 (Z.to_nat (recordSize * 8))
  ++ concat (map (fun r => concat (map (enc 8%nat) r)) data).

(** An INPOP file written by [enc]: the size of a record follows the
    header. *)
Definition inpop_file_by (enc : nat -> Z -> list byte) (fh : JPLEFileHeader)
    (recordSize : Z) (data : list (list Z)) : list byte :=
  header_bytes_by enc fh
  ++ enc 4%nat recordSize
  ++ repeat x00 (Z.to_nat (recordSize * 8 - header_size - 4))
  ++ repeat x00 (Z.to_nat (recordSize * 8))
  ++ concat (map (fun r => concat (map (enc 8%nat) r)) data).

(** The record of [small_file]. *)
Definition small_data : list (list Z) :=
  [data_record 496 bits_0 bits_1 [(78%nat, bits_tenth); (351%nat, bits_384400)]].

(** [small_header] with the number of an INPOP file. *)
Definition inpop_header : JPLEFileHeader :=
  mkHeader bits_0 bits_1 bits_1 0 bits_1 bits_81_25
           (uniform_infos 12 3 13 1) 100 (mkCoeff 458 13 1).

(** [small_file] with its bytes in the other order, and the same data as
    an INPOP file in both orders. *)
Definition swapped_small_file : list byte :=
  de_file_by be_bytes small_header 496 small_data.

Definition inpop_small_file : list byte :=
  inpop_file_by le_bytes inpop_header 496 small_data.

Definition inpop_swapped_small_file : list byte :=
  inpop_file_by be_bytes inpop_header 496 small_data.

(** [small_ephemeris] with another number and flag. *)
Definition small_ephemeris_as (deNum : Z) (swap : bool) : t :=
  mkEphemeris deNum (startDate small_ephemeris) (endDate small_ephemeris)
    (daysPerInterval small_ephemeris) (au small_ephemeris)
    (earthMoonMassRatio small_ephemeris) swap (recordSize small_ephemeris)
    (coeffInfo small_ephemeris) (librationCoeffInfo small_ephemeris)
    (records small_ephemeris).

(** A DE405 file over the days 0 to 1 without nutations and librations:
    thirteen coefficients in one granule for each of the eleven bodies, the
    coefficients of the Sun being the last ones of the record; the Sun stays
    at x = 0.1 km. *)
Definition short_header : JPLEFileHeader :=
  mkHeader bits_0 bits_1 bits_1 0 bits_1 bits_81_25
           (uniform_infos 11 3 13 1 ++ [mkCoeff 432 0 0]) 405 (mkCoeff 432 0 0).

Definition short_file : list byte :=
  de_file short_header 431
          [data_record 431 bits_0 bits_1 [(390%nat, bits_tenth)]].

(** The ephemeris [load] returns for [short_file]. *)
Definition short_ephemeris : t :=
  mkEphemeris 405 0%float 1%float 1%float 1%float 81.25%float false 431
    (uniform_infos 11 0 13 1 ++ [mkCoeff 429 0 0]) (mkCoeff 432 0 0)
    [mkRecord 0%float 1%float
       (map double_of_bits
            (with_coefficients (repeat 0 429) [(390%nat, bits_tenth)]))].

End ExampleFiles.

(** * Properties *)

Lemma In_range (n : nat) (x : Z) : 0 <= x < Z.of_nat n -> In x (range n).
Proof.
  intros H. unfold range. apply in_map_iff. exists (Z.to_nat x).
  split; [lia|]. apply in_seq. lia.
Qed.

Lemma In_interval (n : nat) (lo x : Z) :
  lo <= x < lo + Z.of_nat n -> In x (interval lo n).
Proof.
  revert lo. induction n as [|n IH]; intros lo H; [lia|].
  cbn [interval In].
  destruct (Z.eq_dec lo x) as [E|E]; [now left|].
  right. apply IH. lia.
Qed.

Section StellarClassProperties.

Import StellarClass.
Local Open Scope string_scope.
Local Open Scope Z_scope.

(** ** Packed encodings *)

Lemma eqb_class_eq (a b : t) : eqb_class a b = true -> a = b.
Proof.
  destruct a, b. unfold eqb_class. simpl.
  rewrite !andb_true_iff, !Z.eqb_eq. intros [[[-> ->] ->] ->]. reflexivity.
Qed.

(** A successful unpack does not depend on the object it overwrites. *)
Lemma unpackV2_self (self self' : t) (st : Z) :
  fst (unpackV2 self st) = true -> unpackV2 self' st = unpackV2 self st.
Proof.
  unfold unpackV2, set_starType. cbn [starType].
  repeat match goal with
  | |- context [if ?b then _ else _] => destruct b
  end; simpl; congruence.
Qed.

Lemma unpackV1_self (self self' : t) (st : Z) :
  fst (unpackV1 self st) = true -> unpackV1 self' st = unpackV1 self st.
Proof.
  unfold unpackV1, set_starType. cbn [starType].
  repeat match goal with
  | |- context [if ?b then _ else _] => destruct b
  end; simpl; congruence.
Qed.

Lemma roundtripV2_normal_all :
  forallb (fun sp => forallb (fun su => forallb (roundtripV2_normal sp su)
                                                (range 16)) (range 16))
          (range 32) = true.
Proof. vm_compute. reflexivity. Qed.

(** X1: the V2 encoding is faithful on normal stars: [unpackV2] succeeds on
    what [packV2] makes of a normal star whose fields fit their bits, and
    returns the star (the star type is then 0, and the shift that misplaces
    it is harmless). *)
Lemma unpackV2_packV2_normal (self c : t) :
  starType c = NormalStar ->
  0 <= specClass c < 32 -> 0 <= subclass c < 16 -> 0 <= lumClass c < 16 ->
  unpackV2 self (packV2 c) = (true, c).
Proof.
  destruct c as [ty sp su lu]. simpl. intros -> Hsp Hsu Hlu.
  pose proof roundtripV2_normal_all as H.
  rewrite forallb_forall in H. specialize (H sp (In_range 32 sp Hsp)).
  rewrite forallb_forall in H. specialize (H su (In_range 16 su Hsu)).
  rewrite forallb_forall in H. specialize (H lu (In_range 16 lu Hlu)).
  unfold roundtripV2_normal in H. apply andb_true_iff in H. destruct H as [H1 H2].
  apply eqb_class_eq in H2.
  rewrite (unpackV2_self blank self) by exact H1.
  destruct (unpackV2 blank _) as [b r]. simpl in *. congruence.
Qed.

Lemma unpackV2_packV2_normal_witness :
  (NormalStar = NormalStar /\ 0 <= Spectral_G < 32 /\ 0 <= 2 < 16
   /\ 0 <= Lum_V < 16)
  /\ unpackV2 blank (packV2 (mk NormalStar Spectral_G 2 Lum_V))
     = (true, mk NormalStar Spectral_G 2 Lum_V).
Proof.
  split; [unfold Spectral_G, Lum_V; repeat split; lia|].
  apply (unpackV2_packV2_normal blank (mk NormalStar Spectral_G 2 Lum_V));
    cbn [starType specClass subclass lumClass]; unfold Spectral_G, Lum_V;
    try lia; reflexivity.
Defined.

Lemma testbit_u16 (x n : Z) :
  Z.testbit (u16 x) n = (n <? 16) && Z.testbit x n.
Proof. unfold u16. apply Z.testbit_mod_pow2. lia. Qed.

(** Whatever the class, [packV2] leaves bits 13 to 15 clear. *)
Lemma packV2_star_type_bits (c : t) : Z.shiftr (packV2 c) 13 = 0.
Proof.
  apply Z.bits_inj'. intros n Hn.
  rewrite Z.shiftr_spec, Z.bits_0 by lia.
  unfold packV2. rewrite testbit_u16.
  destruct (n + 13 <? 16) eqn:E; [|reflexivity].
  apply Z.ltb_lt in E.
  rewrite !Z.lor_spec, !Z.shiftl_spec, !Z.land_spec by lia.
  assert (Hc : n = 0 \/ n = 1 \/ n = 2) by lia.
  destruct Hc as [-> | [-> | ->]]; simpl;
    rewrite ?andb_false_r; reflexivity.
Qed.

(** [unpackV2] reads every packed class as a normal star. *)
Lemma unpackV2_packV2_star_type (self c : t) :
  fst (unpackV2 self (packV2 c)) = true /\
  starType (snd (unpackV2 self (packV2 c))) = NormalStar.
Proof.
  unfold unpackV2, set_starType. rewrite packV2_star_type_bits.
  cbn. split; reflexivity.
Qed.

(** C1: the black hole and the white dwarf DA5 are representable in V2,
    [unpackV2] accepts what [packV2] makes of them, and the class it returns
    is a normal star; so it is for every class, because the star type,
    shifted by 18, never reaches bits 13 to 15 of the packed value. *)
Theorem packV2_unpackV2_loses_star_type :
  (packV2 (mk BlackHole Spectral_Unknown Subclass_Unknown Lum_Unknown) = 0x0ca8
   /\ unpackV2 blank (packV2 (mk BlackHole Spectral_Unknown Subclass_Unknown Lum_Unknown))
      = (true, mk NormalStar Spectral_Unknown Subclass_Unknown Lum_Unknown))
  /\ (packV2 (mk WhiteDwarf Spectral_DA 5 Lum_Unknown) = 0x1058
      /\ unpackV2 blank (packV2 (mk WhiteDwarf Spectral_DA 5 Lum_Unknown))
         = (true, mk NormalStar Spectral_C 5 Lum_Unknown))
  /\ (forall self c : t,
        starType (snd (unpackV2 self (packV2 c))) = NormalStar).
Proof.
  split; [|split].
  - split; reflexivity.
  - split; reflexivity.
  - intros self c. apply unpackV2_packV2_star_type.
Qed.

Lemma roundtripV1_normal_all :
  forallb (fun sp => forallb (fun su => forallb (roundtripV1_normal sp su)
                                                (range 16)) (range 16))
          (range 17) = true.
Proof. vm_compute. reflexivity. Qed.

(** X2: the V1 encoding is faithful on the normal stars it can represent:
    [unpackV1] succeeds on what [packV1] makes of a normal star of a class
    O..C other than Y, and returns the star. *)
Lemma unpackV1_packV1_normal (self c : t) :
  starType c = NormalStar ->
  0 <= specClass c <= 16 -> specClass c <> Spectral_Y ->
  0 <= subclass c < 16 -> 0 <= lumClass c < 16 ->
  unpackV1 self (packV1 c) = (true, c).
Proof.
  destruct c as [ty sp su lu]. simpl. intros -> Hsp HY Hsu Hlu.
  pose proof roundtripV1_normal_all as H.
  rewrite forallb_forall in H. specialize (H sp (In_range 17 sp ltac:(lia))).
  rewrite forallb_forall in H. specialize (H su (In_range 16 su Hsu)).
  rewrite forallb_forall in H. specialize (H lu (In_range 16 lu Hlu)).
  unfold roundtripV1_normal in H. apply orb_true_iff in H.
  destruct H as [H|H]; [apply Z.eqb_eq in H; contradiction|].
  apply andb_true_iff in H. destruct H as [H1 H2].
  apply eqb_class_eq in H2.
  rewrite (unpackV1_self blank self) by exact H1.
  destruct (unpackV1 blank _) as [b r]. simpl in *. congruence.
Qed.

Lemma unpackV1_packV1_normal_witness :
  (NormalStar = NormalStar /\ 0 <= Spectral_C <= 16
   /\ Spectral_C <> Spectral_Y /\ 0 <= 7 < 16 /\ 0 <= Lum_III < 16)
  /\ unpackV1 blank (packV1 (mk NormalStar Spectral_C 7 Lum_III))
     = (true, mk NormalStar Spectral_C 7 Lum_III).
Proof.
  split; [unfold Spectral_C, Spectral_Y, Lum_III; repeat split; lia|].
  apply (unpackV1_packV1_normal blank (mk NormalStar Spectral_C 7 Lum_III));
    cbn [starType specClass subclass lumClass];
    unfold Spectral_C, Spectral_Y, Lum_III; try lia; reflexivity.
Defined.

Lemma class_Y_becomes_Unknown_all :
  forallb (fun su => forallb (class_Y_becomes_Unknown su) (range 16))
          (range 16) = true.
Proof. vm_compute. reflexivity. Qed.

(** X3: V1 has no place for class Y: a normal star of this class is packed
    as one of unknown class, and unpacked as such, with its subclass and its
    luminosity class. *)
Lemma unpackV1_packV1_class_Y (self c : t) :
  starType c = NormalStar -> specClass c = Spectral_Y ->
  0 <= subclass c < 16 -> 0 <= lumClass c < 16 ->
  unpackV1 self (packV1 c)
  = (true, mk NormalStar Spectral_Unknown (subclass c) (lumClass c)).
Proof.
  destruct c as [ty sp su lu]. cbn [starType specClass subclass lumClass].
  intros -> -> Hsu Hlu.
  pose proof class_Y_becomes_Unknown_all as H.
  rewrite forallb_forall in H. specialize (H su (In_range 16 su Hsu)).
  rewrite forallb_forall in H. specialize (H lu (In_range 16 lu Hlu)).
  unfold class_Y_becomes_Unknown in H.
  apply andb_true_iff in H. destruct H as [H1 H2].
  apply eqb_class_eq in H2.
  rewrite (unpackV1_self blank self) by exact H1.
  destruct (unpackV1 blank _) as [b r]. simpl in *. congruence.
Qed.

Lemma unpackV1_packV1_class_Y_witness :
  (NormalStar = NormalStar /\ Spectral_Y = Spectral_Y /\ 0 <= 4 < 16
   /\ 0 <= Lum_V < 16)
  /\ unpackV1 blank (packV1 (mk NormalStar Spectral_Y 4 Lum_V))
     = (true, mk NormalStar Spectral_Unknown 4 Lum_V).
Proof.
  split; [unfold Lum_V; repeat split; lia|].
  apply (unpackV1_packV1_class_Y blank (mk NormalStar Spectral_Y 4 Lum_V));
    cbn [starType specClass subclass lumClass]; unfold Lum_V;
    try lia; reflexivity.
Defined.

Lemma star_type_lost_V1_all :
  forallb (fun ty => forallb (fun sp => forallb (fun su => forallb (fun lu =>
             (ty =? NormalStar) || negb (star_type_survives_V1 ty sp su lu))
           (range 16)) (range 16)) (range 32)) (range 8) = true.
Proof. vm_compute. reflexivity. Qed.

(** [unpackV1] takes the star type from bit 13, one bit above the place
    where [packV1] puts it: no star type other than the normal star is read
    back. *)
Lemma unpackV1_packV1_star_type (c : t) :
  0 <= starType c < 8 -> starType c <> NormalStar ->
  0 <= specClass c < 32 -> 0 <= subclass c < 16 -> 0 <= lumClass c < 16 ->
  starType (snd (unpackV1 blank (packV1 c))) <> starType c.
Proof.
  destruct c as [ty sp su lu]. cbn [starType specClass subclass lumClass].
  intros Hty Hn Hsp Hsu Hlu.
  pose proof star_type_lost_V1_all as H.
  rewrite forallb_forall in H. specialize (H ty (In_range 8 ty Hty)).
  rewrite forallb_forall in H. specialize (H sp (In_range 32 sp Hsp)).
  rewrite forallb_forall in H. specialize (H su (In_range 16 su Hsu)).
  rewrite forallb_forall in H. specialize (H lu (In_range 16 lu Hlu)).
  apply orb_true_iff in H. destruct H as [H|H].
  - apply Z.eqb_eq in H. contradiction.
  - unfold star_type_survives_V1 in H. apply negb_true_iff, Z.eqb_neq in H.
    exact H.
Qed.

(** Whatever it returns, [unpackV1] has stored bits 13 to 15 as the star
    type. *)
Lemma unpackV1_star_type (self : t) (st : Z) :
  starType (snd (unpackV1 self st)) = Z.shiftr st 13.
Proof.
  unfold unpackV1, set_starType. cbn [starType].
  repeat match goal with
  | |- context [if ?b then _ else _] => destruct b
  end; reflexivity.
Qed.

(** C2: the white dwarf DA5 is not of class Y and its star type fits the V1
    field; [packV1] gives 0x1058 and [unpackV1], which takes the star type
    from bit 13 and not from bit 12, returns the normal star O5 for it.  The
    black hole is read as a white dwarf of a class that does not exist, and
    rejected.  No class with a star type other than the normal star has its
    star type read back. *)
Theorem packV1_unpackV1_loses_star_type :
  (packV1 (mk WhiteDwarf Spectral_DA 5 Lum_Unknown) = 0x1058
   /\ unpackV1 blank (packV1 (mk WhiteDwarf Spectral_DA 5 Lum_Unknown))
      = (true, mk NormalStar Spectral_O 5 Lum_Unknown))
  /\ (packV1 (mk BlackHole Spectral_Unknown Subclass_Unknown Lum_Unknown) = 0x3ca8
      /\ unpackV1 blank (packV1 (mk BlackHole Spectral_Unknown Subclass_Unknown Lum_Unknown))
         = (false, mk WhiteDwarf 0 0 0))
  /\ (forall self c : t,
        0 <= starType c < 8 -> starType c <> NormalStar ->
        0 <= specClass c < 32 -> 0 <= subclass c < 16 ->
        0 <= lumClass c < 16 ->
        starType (snd (unpackV1 self (packV1 c))) <> starType c).
Proof.
  split; [|split].
  - split; reflexivity.
  - split; reflexivity.
  - intros self c Hty Hn Hsp Hsu Hlu.
    rewrite unpackV1_star_type, <- (unpackV1_star_type blank).
    now apply unpackV1_packV1_star_type.
Qed.

Lemma packV1_unpackV1_loses_star_type_witness :
  (0 <= WhiteDwarf < 8 /\ WhiteDwarf <> NormalStar)
  /\ starType (snd (unpackV1 blank
                      (packV1 (mk WhiteDwarf Spectral_DA 5 Lum_Unknown))))
     <> WhiteDwarf.
Proof.
  split.
  - split; [unfold WhiteDwarf; lia | discriminate].
  - apply (proj2 (proj2 packV1_unpackV1_loses_star_type) blank
             (mk WhiteDwarf Spectral_DA 5 Lum_Unknown));
      cbn [starType specClass subclass lumClass];
      unfold WhiteDwarf, NormalStar, Spectral_DA, Lum_Unknown;
      try lia; discriminate.
Defined.

(** ** Rendering *)

Lemma str_BlackHole (c : t) : starType c = BlackHole -> str c = Ret "X".
Proof. intros H. unfold str, getStarType. rewrite H. reflexivity. Qed.

(** A white dwarf or a neutron star is rendered as a black hole, when the
    subscripts that come first stay inside their literals. *)
Lemma str_fall_through (c : t) :
  starType c = WhiteDwarf \/ starType c = NeutronStar ->
  str c = Ret "X" \/ str c = Undef.
Proof.
  intros [H|H]; unfold str, getStarType; rewrite H; cbn [Z.eqb WhiteDwarf NeutronStar];
    unfold str_case_WhiteDwarf, str_case_NeutronStar, str_case_BlackHole, bind;
    repeat match goal with
    | |- context [match lit_at ?l ?k with _ => _ end] =>
        let E := fresh "E" in
        destruct (lit_at l k) eqn:E;
        try (unfold lit_at in E;
             match type of E with
             | (if ?b then _ else _) = _ => destruct b; discriminate
             end)
    end; auto.
Qed.

Lemma lit_at_inside (lit : string) (k : Z) :
  0 <= k <= Z.of_nat (String.length lit) ->
  lit_at lit k = Ret (match String.get (Z.to_nat k) lit with
                      | Some ch => ch
                      | None => NUL
                      end).
Proof.
  intros H. unfold lit_at.
  destruct (0 <=? k) eqn:E1; [|apply Z.leb_gt in E1; lia].
  destruct (k <=? Z.of_nat (String.length lit)) eqn:E2; [reflexivity|].
  apply Z.leb_gt in E2. lia.
Qed.

Lemma lit_at_outside (lit : string) (k : Z) :
  k < 0 \/ Z.of_nat (String.length lit) < k -> lit_at lit k = Undef.
Proof.
  intros H. unfold lit_at.
  destruct (0 <=? k) eqn:E1; [|reflexivity].
  destruct (k <=? Z.of_nat (String.length lit)) eqn:E2; [|reflexivity].
  apply Z.leb_le in E1, E2. lia.
Qed.

Lemma lit_at_cases (lit : string) (k : Z) :
  (exists ch : ascii, lit_at lit k = Ret ch) \/ lit_at lit k = Undef.
Proof. unfold lit_at. destruct (_ && _); eauto. Qed.

(** A normal star is rendered as the specification says. *)
Lemma str_NormalStar (c : t) :
  starType c = NormalStar ->
  0 <= specClass c <= 16 -> 0 <= subclass c <= 9 ->
  exists letter digit : ascii,
    String.get (Z.to_nat (specClass c)) letters = Some letter /\
    String.get (Z.to_nat (subclass c)) digits = Some digit /\
    str c = Ret (String letter (String digit (luminosity_suffix (lumClass c)))).
Proof.
  intros Hty Hsp Hsu. unfold str, getStarType. rewrite Hty.
  cbn [Z.eqb NormalStar WhiteDwarf NeutronStar BlackHole].
  unfold str_case_NormalStar, getSpectralClass, getSubclass, getLuminosityClass.
  assert (Hu : u32 (specClass c) = specClass c)
    by (unfold u32; apply Z.mod_small; lia).
  rewrite Hu, !lit_at_inside by (simpl; lia).
  fold letters digits.
  destruct (String.get (Z.to_nat (specClass c)) letters) as [letter|] eqn:El.
  2: { exfalso. revert El.
       assert (Hin : In (specClass c) (range 17)) by (apply In_range; lia).
       simpl in Hin.
       repeat (destruct Hin as [<-|Hin]; [discriminate|]). contradiction. }
  destruct (String.get (Z.to_nat (subclass c)) digits) as [digit|] eqn:Ed.
  2: { exfalso. revert Ed.
       assert (Hin : In (subclass c) (range 10)) by (apply In_range; lia).
       simpl in Hin.
       repeat (destruct Hin as [<-|Hin]; [discriminate|]). contradiction. }
  exists letter, digit. repeat split.
Qed.

(** C3: the white dwarf DA5 and the neutron star Q5 are not rendered as a
    letter and a digit: the subscript of ["WD"] and of ["Q"] by the spectral
    class leaves the literal; and where the spectral class is small enough
    for the subscripts to stay inside, the cases run on into the one of the
    black hole, and the text is ["X"].  The black hole and the normal star
    are rendered as the claim says. *)
Theorem str_compact_objects_fall_through :
  (str (mk WhiteDwarf Spectral_DA 5 Lum_Unknown) = Undef
   /\ str (mk NeutronStar Spectral_Q 5 Lum_Unknown) = Undef
   /\ str (mk WhiteDwarf Spectral_B 5 Lum_Unknown) = Ret "X"
   /\ str (mk NeutronStar Spectral_O 5 Lum_Unknown) = Ret "X"
   /\ str (mk BlackHole Spectral_Unknown Subclass_Unknown Lum_Unknown) = Ret "X"
   /\ str (mk NormalStar Spectral_G 2 Lum_V) = Ret "G2 V")
  /\ (forall c : t,
        starType c = WhiteDwarf \/ starType c = NeutronStar ->
        str c = Ret "X" \/ str c = Undef)
  /\ (forall c : t, starType c = BlackHole -> str c = Ret "X")
  /\ (forall c : t,
        starType c = NormalStar ->
        0 <= specClass c <= 16 -> 0 <= subclass c <= 9 ->
        exists letter digit : ascii,
          String.get (Z.to_nat (specClass c)) letters = Some letter /\
          String.get (Z.to_nat (subclass c)) digits = Some digit /\
          str c = Ret (String letter
                         (String digit (luminosity_suffix (lumClass c))))).
Proof.
  split; [repeat split; reflexivity|].
  split; [exact str_fall_through|].
  split; [exact str_BlackHole | exact str_NormalStar].
Qed.

Lemma str_compact_objects_fall_through_witness :
  (WhiteDwarf = WhiteDwarf \/ WhiteDwarf = NeutronStar)
  /\ (str (mk WhiteDwarf Spectral_B 5 Lum_Unknown) = Ret "X"
      \/ str (mk WhiteDwarf Spectral_B 5 Lum_Unknown) = Undef).
Proof.
  split; [left; reflexivity|].
  apply (proj1 (proj2 str_compact_objects_fall_through)
           (mk WhiteDwarf Spectral_B 5 Lum_Unknown)).
  left. reflexivity.
Defined.

Lemma luminosity_suffix_In (lum : Z) : In (luminosity_suffix lum) suffixes.
Proof.
  unfold luminosity_suffix, suffixes.
  repeat match goal with
  | |- context [if ?b then _ else _] => destruct b
  end; simpl; tauto.
Qed.

Lemma parses_to_eq (s : string) (c : t) :
  parses_to s c = true -> parse s = Some (Ret c).
Proof.
  unfold parses_to. destruct (parse s) as [[c'| |]|]; try discriminate.
  intros H. apply eqb_class_eq in H. congruence.
Qed.

Lemma parse_recovers_all :
  forallb (fun sp =>
    (sp =? Spectral_WN) || (sp =? Spectral_Unknown)
    || forallb (fun su => forallb (parse_recovers sp su) suffixes) (range 10))
    (range 17) = true.
Proof. vm_compute. reflexivity. Qed.

(** C4, as amended: a normal star with a spectral class that has a letter of
    its own and a subclass 0..9 is rendered by [str], and [parse] reads the
    star type, the spectral class and the subclass back from the text; it
    stops at the space before the luminosity class, so that the class it
    returns has the luminosity class Unknown, and is the class rendered when
    that one has it too. *)
Theorem parse_str_NormalStar (c : t) :
  starType c = NormalStar ->
  0 <= specClass c <= 16 ->
  specClass c <> Spectral_WN -> specClass c <> Spectral_Unknown ->
  0 <= subclass c <= 9 ->
  exists s : string,
    str c = Ret s /\
    parse s = Some (Ret (mk NormalStar (specClass c) (subclass c) Lum_Unknown)) /\
    (lumClass c = Lum_Unknown -> parse s = Some (Ret c)).
Proof.
  intros Hty Hsp HWN HU Hsu.
  destruct (str_NormalStar c Hty Hsp Hsu) as (letter & digit & Hl & Hd & Hs).
  exists (String letter (String digit (luminosity_suffix (lumClass c)))).
  split; [exact Hs|].
  assert (Hp : parse (String letter (String digit (luminosity_suffix (lumClass c))))
               = Some (Ret (mk NormalStar (specClass c) (subclass c) Lum_Unknown))).
  { pose proof parse_recovers_all as H.
    rewrite forallb_forall in H.
    specialize (H (specClass c) (In_range 17 (specClass c) ltac:(lia))).
    apply orb_true_iff in H. destruct H as [H|H].
    { apply orb_true_iff in H. destruct H as [H|H]; apply Z.eqb_eq in H; contradiction. }
    rewrite forallb_forall in H.
    specialize (H (subclass c) (In_range 10 (subclass c) ltac:(lia))).
    rewrite forallb_forall in H.
    specialize (H _ (luminosity_suffix_In (lumClass c))).
    unfold parse_recovers in H. rewrite Hl, Hd in H.
    now apply parses_to_eq. }
  split; [exact Hp|].
  intros Hlum. rewrite Hp. destruct c as [ty sp su lu]. simpl in *. congruence.
Qed.

Lemma parse_str_NormalStar_witness :
  exists s : string,
    str (mk NormalStar Spectral_K 3 Lum_Unknown) = Ret s /\
    parse s = Some (Ret (mk NormalStar Spectral_K 3 Lum_Unknown)) /\
    (Lum_Unknown = Lum_Unknown -> parse s = Some (Ret (mk NormalStar Spectral_K 3 Lum_Unknown))).
Proof.
  apply (parse_str_NormalStar (mk NormalStar Spectral_K 3 Lum_Unknown));
    simpl; unfold Spectral_K, Spectral_WN, Spectral_Unknown; try reflexivity; lia.
Defined.

(** C4 as stated fails: G2 V is a normal star with a known subclass, [str]
    renders it ["G2 V"], and [parse] returns G2 with the luminosity class
    Unknown for this text.  So do WN5, rendered ["W5"] and read as WC5, and
    the star of unknown class and subclass 5, rendered ["?5"] and read
    without its subclass. *)
Lemma parse_str_G2V_counterexample :
  let c := mk NormalStar Spectral_G 2 Lum_V in
  let wn := mk NormalStar Spectral_WN 5 Lum_Unknown in
  let u := mk NormalStar Spectral_Unknown 5 Lum_Unknown in
  (starType c = NormalStar /\ subclass c <> Subclass_Unknown /\
   str c = Ret "G2 V" /\
   parse "G2 V" = Some (Ret (mk NormalStar Spectral_G 2 Lum_Unknown)) /\
   parse "G2 V" <> Some (Ret c))
  /\ (str wn = Ret "W5" /\
      parse "W5" = Some (Ret (mk NormalStar Spectral_WC 5 Lum_Unknown)) /\
      parse "W5" <> Some (Ret wn))
  /\ (str u = Ret "?5" /\
      parse "?5"
      = Some (Ret (mk NormalStar Spectral_Unknown Subclass_Unknown Lum_Unknown)) /\
      parse "?5" <> Some (Ret u)).
Proof.
  cbv zeta. repeat split; try reflexivity; discriminate.
Qed.

(** C10 as stated fails: the subscript 10 is above 9 and inside the
    literal, whose eleventh element is the terminating NUL; 10 is the Unknown
    sentinel, and [str] returns for it a text with this NUL in the place of
    the digit. *)
Lemma digit_lookup_sentinel_counterexample :
  (10 <=? 9) = false
  /\ lit_at "0123456789" 10 = Ret NUL
  /\ Subclass_Unknown = 10
  /\ str (mk NormalStar Spectral_G Subclass_Unknown Lum_V)
     = Ret (String "G" (String NUL " V")).
Proof. repeat split; reflexivity. Qed.

(** C10, as amended: the subscript of ["0123456789"] by the subclass is not
    checked; it finds a decimal digit exactly for the subclasses 0..9, it
    stays inside the literal exactly for 0..10, and at 10, the Unknown
    sentinel, it finds the terminating NUL, which [str] puts in the place of
    the digit of a normal star; for a white dwarf, a neutron star or a normal
    star with a subclass above 10 the subscript leaves the literal. *)
Theorem digit_lookup_bounds (k : Z) :
  (0 <= k <= 9 <->
   exists d : ascii, lit_at "0123456789" k = Ret d /\ isdigit d = true)
  /\ (0 <= k <= 10 <-> exists d : ascii, lit_at "0123456789" k = Ret d)
  /\ (Subclass_Unknown = 10 /\ lit_at "0123456789" 10 = Ret NUL)
  /\ (forall sp lu : Z,
        0 <= sp <= 16 ->
        exists letter : ascii,
          str (mk NormalStar sp Subclass_Unknown lu)
          = Ret (String letter (String NUL (luminosity_suffix lu))))
  /\ (forall ty sp lu : Z,
        10 < k ->
        ty = WhiteDwarf \/ ty = NeutronStar \/ ty = NormalStar ->
        str (mk ty sp k lu) = Undef).
Proof.
  assert (Hin : 0 <= k <= 10 -> exists d, lit_at "0123456789" k = Ret d /\
                  (isdigit d = true <-> k <= 9)).
  { intros H. assert (Hr : In k (range 11)) by (apply In_range; lia).
    simpl in Hr.
    repeat (destruct Hr as [<-|Hr];
            [eexists; split; [reflexivity|]; vm_compute; split; intros;
             (lia || congruence)|]).
    contradiction. }
  assert (Hout : ~ 0 <= k <= 10 -> lit_at "0123456789" k = Undef).
  { intros H. apply lit_at_outside. simpl. lia. }
  assert (Hcases : 0 <= k <= 10 \/ ~ 0 <= k <= 10) by lia.
  split; [|split; [|split; [|split]]].
  - split.
    + intros H. destruct Hin as (d & Hd & Hdig); [lia|].
      exists d. split; [exact Hd|]. apply Hdig. lia.
    + intros (d & Hd & Hdig). destruct Hcases as [Hc|Hc].
      * destruct (Hin Hc) as (d' & Hd' & Hdig').
        rewrite Hd in Hd'. injection Hd' as <-. apply Hdig' in Hdig. lia.
      * rewrite (Hout Hc) in Hd. discriminate.
  - split.
    + intros H. destruct (Hin H) as (d & Hd & _). eauto.
    + intros (d & Hd). destruct Hcases as [Hc|Hc]; [exact Hc|].
      rewrite (Hout Hc) in Hd. discriminate.
  - split; reflexivity.
  - intros sp lu Hsp.
    assert (Hr : In sp (range 17)) by (apply In_range; lia).
    simpl in Hr.
    repeat (destruct Hr as [<-|Hr]; [eexists; reflexivity|]).
    contradiction.
  - intros ty sp lu Hk Hty.
    assert (Hd : lit_at "0123456789" k = Undef) by (apply Hout; lia).
    unfold str, getStarType, str_case_WhiteDwarf, str_case_NeutronStar,
      str_case_NormalStar, getSubclass, getSpectralClass.
    cbn [starType subclass specClass].
    destruct Hty as [-> | [-> | ->]]; cbn - [lit_at u32 bind];
      match goal with
      | |- context [lit_at ?l (u32 sp)] =>
          destruct (lit_at_cases l (u32 sp)) as [[ch Hch]|Hch]
      end;
      rewrite Hch; cbn [bind]; rewrite ?Hd; reflexivity.
Qed.

Lemma digit_lookup_bounds_witness :
  (10 < 11 /\ NormalStar = NormalStar)
  /\ str (mk NormalStar Spectral_G 11 Lum_V) = Undef.
Proof.
  split; [split; [lia | reflexivity]|].
  apply (proj2 (proj2 (proj2 (proj2 (digit_lookup_bounds 11))))); [lia|].
  right. right. reflexivity.
Defined.

(** ** The scenarios of the specification *)

Example parse_G2V :
  parse "G2V" = Some (Ret (mk NormalStar Spectral_G 2 Lum_V)).
Proof. reflexivity. Qed.

Example parse_sdM4 :
  parse "sdM4" = Some (Ret (mk NormalStar Spectral_M 4 Lum_VI)).
Proof. reflexivity. Qed.

Example parse_DA9 :
  parse "DA9" = Some (Ret (mk WhiteDwarf Spectral_DA 9 Lum_Unknown)).
Proof. reflexivity. Qed.

Example parse_X :
  parse "X"
  = Some (Ret (mk BlackHole Spectral_Unknown Subclass_Unknown Lum_Unknown)).
Proof. reflexivity. Qed.

Example parse_WN5 :
  parse "WN5" = Some (Ret (mk NormalStar Spectral_WN 5 Lum_Unknown)).
Proof. reflexivity. Qed.

Example parse_K1_5III :
  parse "K1.5III" = Some (Ret (mk NormalStar Spectral_K 1 Lum_III)).
Proof. reflexivity. Qed.

Example parse_empty :
  parse ""
  = Some (Ret (mk NormalStar Spectral_Unknown Subclass_Unknown Lum_Unknown)).
Proof. reflexivity. Qed.

(** The letter Q is not consumed in [BeginState], and the states after it
    look at it again: the subtype and the subclass of a neutron star are
    never read. *)
Example parse_QN5 :
  parse "QN5" = Some (Ret (mk NeutronStar Spectral_Q Subclass_Unknown Lum_Unknown)).
Proof. reflexivity. Qed.

(** ** Termination of the parser *)

Lemma get_Some_lt (st : string) (n : nat) (ch : ascii) :
  String.get n st = Some ch -> (n < String.length st)%nat.
Proof.
  revert n; induction st as [|a st IH]; intros [|n]; simpl; try discriminate.
  - lia.
  - intros H. apply IH in H. lia.
Qed.


Lemma current_at_0 (st : string) (l : locals) (ch : ascii) :
  i l = 0 -> String.get 0 st = Some ch -> current st l = ch.
Proof.
  intros Hi Hg. unfold current. rewrite Hi. simpl.
  pose proof (get_Some_lt _ _ _ Hg) as Hlt.
  destruct (0 <? Z.of_nat (String.length st)) eqn:E.
  - now rewrite Hg.
  - apply Z.ltb_ge in E. lia.
Qed.



Lemma ch_is_true (c ch : ascii) : ch_is c ch = true -> c = ch.
Proof. apply Ascii.eqb_eq. Qed.








Lemma loop_more_fuel (st : string) (fuel fuel' : nat) (l : locals)
    (r : outcome locals) :
  loop fuel st l = Some r -> (fuel <= fuel')%nat -> loop fuel' st l = Some r.
Proof.
  revert fuel' l. induction fuel as [|fuel IH]; intros fuel' l H Hle.
  - destruct fuel'; [assumption|].
    simpl in *. destruct (state l); congruence.
  - destruct fuel' as [|fuel']; [lia|].
    simpl in *. destruct (state l); try assumption;
      (destruct (step st l); [apply IH; [assumption | lia] | assumption ..]).
Qed.


(** ** The order of stellar classes *)

Lemma packV2_weighs_all :
  forallb (fun sp => forallb (fun su => forallb (packV2_weighs sp su)
                                                (range 16)) (range 16))
          (range 32) = true.
Proof. vm_compute. reflexivity. Qed.

(** The word [packV2] makes of a normal star whose fields fit their bits. *)
Lemma packV2_normal_value (c : t) :
  starType c = NormalStar ->
  0 <= specClass c < 32 -> 0 <= subclass c < 16 -> 0 <= lumClass c < 16 ->
  packV2 c = 256 * specClass c + 16 * subclass c + lumClass c.
Proof.
  destruct c as [ty sp su lu]. cbn [starType specClass subclass lumClass].
  intros -> Hsp Hsu Hlu.
  pose proof packV2_weighs_all as H.
  rewrite forallb_forall in H. specialize (H sp (In_range 32 sp Hsp)).
  rewrite forallb_forall in H. specialize (H su (In_range 16 su Hsu)).
  rewrite forallb_forall in H. specialize (H lu (In_range 16 lu Hlu)).
  now apply Z.eqb_eq in H.
Qed.

(** X4: [operator<] orders the normal stars whose fields fit their bits by
    spectral class first, then by subclass, then by luminosity class. *)
Theorem operator_lt_lexicographic (a b : t) :
  starType a = NormalStar -> starType b = NormalStar ->
  0 <= specClass a < 32 -> 0 <= subclass a < 16 -> 0 <= lumClass a < 16 ->
  0 <= specClass b < 32 -> 0 <= subclass b < 16 -> 0 <= lumClass b < 16 ->
  operator_lt a b = true <->
  specClass a < specClass b \/
  (specClass a = specClass b /\
   (subclass a < subclass b \/
    (subclass a = subclass b /\ lumClass a < lumClass b))).
Proof.
  intros Ta Tb Ha1 Ha2 Ha3 Hb1 Hb2 Hb3. unfold operator_lt.
  rewrite (packV2_normal_value a), (packV2_normal_value b) by assumption.
  rewrite Z.ltb_lt. lia.
Qed.

Lemma operator_lt_lexicographic_witness :
  operator_lt (mk NormalStar Spectral_G 2 Lum_V)
              (mk NormalStar Spectral_G 8 Lum_III) = true <->
  Spectral_G < Spectral_G \/
  (Spectral_G = Spectral_G /\
   (2 < 8 \/ (2 = 8 /\ Lum_V < Lum_III))).
Proof.
  apply (operator_lt_lexicographic (mk NormalStar Spectral_G 2 Lum_V)
                                   (mk NormalStar Spectral_G 8 Lum_III));
    cbn [starType specClass subclass lumClass];
    unfold Spectral_G, Lum_V, Lum_III; try lia; reflexivity.
Defined.

(** ** Decoding arbitrary words *)

Lemma repackV2_all : forallb repackV2 (range (Z.to_nat 8192)) = true.
Proof. vm_compute. reflexivity. Qed.

(** X5: a word below [2 ^ 13] is the V2 encoding of a normal star:
    [unpackV2] accepts it, and [packV2] makes the same word of the class it
    gives. *)
Theorem packV2_of_unpackV2 (self : t) (st : Z) :
  0 <= st < 2 ^ 13 ->
  fst (unpackV2 self st) = true /\ packV2 (snd (unpackV2 self st)) = st.
Proof.
  intros H.
  pose proof repackV2_all as Hall. rewrite forallb_forall in Hall.
  specialize (Hall st (In_range (Z.to_nat 8192) st H)). unfold repackV2 in Hall.
  apply Z.eqb_eq in Hall.
  assert (Hs : Z.shiftr st 13 = 0).
  { rewrite Z.shiftr_div_pow2 by lia. apply Z.div_small. lia. }
  assert (Hok : forall s, fst (unpackV2 s st) = true).
  { intros s. unfold unpackV2, set_starType. cbn [starType]. rewrite Hs.
    reflexivity. }
  split; [apply Hok|].
  rewrite (unpackV2_self blank self st (Hok blank)). exact Hall.
Qed.

Lemma packV2_of_unpackV2_witness :
  0 <= 0x0426 < 2 ^ 13
  /\ fst (unpackV2 blank 0x0426) = true
  /\ packV2 (snd (unpackV2 blank 0x0426)) = 0x0426.
Proof.
  split; [lia|]. apply (packV2_of_unpackV2 blank 0x0426). lia.
Defined.

Lemma repackV1_all : forallb repackV1 (range (Z.to_nat 4096)) = true.
Proof. vm_compute. reflexivity. Qed.

(** X6: a word below [2 ^ 12] is the V1 encoding of a normal star:
    [unpackV1] accepts it, and [packV1] makes the same word of the class it
    gives (the field 15 is read as class C, which [packV1] stores as 15). *)
Theorem packV1_of_unpackV1 (self : t) (st : Z) :
  0 <= st < 2 ^ 12 ->
  fst (unpackV1 self st) = true /\ packV1 (snd (unpackV1 self st)) = st.
Proof.
  intros H.
  pose proof repackV1_all as Hall. rewrite forallb_forall in Hall.
  specialize (Hall st (In_range (Z.to_nat 4096) st H)). unfold repackV1 in Hall.
  apply Z.eqb_eq in Hall.
  assert (Hs : Z.shiftr st 13 = 0).
  { rewrite Z.shiftr_div_pow2 by lia. apply Z.div_small. lia. }
  assert (Hok : forall s, fst (unpackV1 s st) = true).
  { intros s. unfold unpackV1, set_starType. cbn [starType]. rewrite Hs.
    reflexivity. }
  split; [apply Hok|].
  rewrite (unpackV1_self blank self st (Hok blank)). exact Hall.
Qed.

Lemma packV1_of_unpackV1_witness :
  0 <= 0x0f26 < 2 ^ 12
  /\ fst (unpackV1 blank 0x0f26) = true
  /\ packV1 (snd (unpackV1 blank 0x0f26)) = 0x0f26.
Proof.
  split; [lia|]. apply (packV1_of_unpackV1 blank 0x0f26). lia.
Defined.

Lemma land_ones_range (x n : Z) : 0 <= n -> 0 <= Z.land x (Z.ones n) < 2 ^ n.
Proof.
  intros Hn. rewrite Z.land_ones by exact Hn. apply Z.mod_pos_bound. lia.
Qed.

Lemma land_15_range (x : Z) : 0 <= Z.land x 15 < 16.
Proof. exact (land_ones_range x 4 ltac:(lia)). Qed.

Lemma land_31_range (x : Z) : 0 <= Z.land x 31 < 32.
Proof. exact (land_ones_range x 5 ltac:(lia)). Qed.

Ltac unfold_class := cbn [fst snd starType specClass subclass lumClass].

(** X7: whatever the word, a class [unpackV2] accepts has one of the four
    star types; a white dwarf has one of the eight white dwarf classes, a
    neutron star the class [Spectral_Q] plus its subclass field, which is
    below four, both have no luminosity class, and a black hole has no
    spectral class, subclass or luminosity class. *)
Theorem unpackV2_well_formed (self : t) (st : Z) :
  fst (unpackV2 self st) = true -> unpacked (snd (unpackV2 self st)).
Proof.
  unfold unpackV2, set_starType, unpacked. cbn [starType].
  pose proof (land_31_range (Z.shiftr st 8)) as H31.
  pose proof (land_15_range (Z.shiftr st 8)) as H8.
  pose proof (land_15_range (Z.shiftr st 4)) as H4.
  pose proof (land_15_range st) as H0.
  destruct (Z.shiftr st 13 =? NormalStar) eqn:E0.
  { apply Z.eqb_eq in E0. intros _. left. unfold_class. auto. }
  destruct (Z.shiftr st 13 =? WhiteDwarf) eqn:E1.
  { apply Z.eqb_eq in E1.
    destruct (WDClassCount <=? _) eqn:E; [discriminate|].
    apply Z.leb_gt in E. intros _. right. left. unfold_class.
    repeat split; try assumption; try lia. }
  destruct (Z.shiftr st 13 =? NeutronStar) eqn:E2.
  { apply Z.eqb_eq in E2.
    destruct (NeutronStarClassCount <=? _) eqn:E; [discriminate|].
    apply Z.leb_gt in E. intros _. right. right. left. unfold_class.
    repeat split; try assumption; try lia. }
  destruct (Z.shiftr st 13 =? BlackHole) eqn:E3; [|discriminate].
  apply Z.eqb_eq in E3. intros _. right. right. right. unfold_class. auto.
Qed.

Lemma unpackV2_well_formed_witness :
  fst (unpackV2 blank 0x2309) = true
  /\ unpacked (snd (unpackV2 blank 0x2309)).
Proof.
  split; [reflexivity|]. apply (unpackV2_well_formed blank 0x2309). reflexivity.
Defined.

(** X8: a class [unpackV1] accepts is of the same kind, and when it is a
    normal star its spectral class is at most [Spectral_C] and never
    [Spectral_Y]. *)
Theorem unpackV1_well_formed (self : t) (st : Z) :
  fst (unpackV1 self st) = true ->
  unpacked (snd (unpackV1 self st)) /\
  (starType (snd (unpackV1 self st)) = NormalStar ->
   specClass (snd (unpackV1 self st)) <= Spectral_C /\
   specClass (snd (unpackV1 self st)) <> Spectral_Y).
Proof.
  unfold unpackV1, set_starType, unpacked. cbn [starType].
  pose proof (land_15_range (Z.shiftr st 8)) as H8.
  pose proof (land_15_range (Z.shiftr st 4)) as H4.
  pose proof (land_15_range st) as H0.
  destruct (Z.shiftr st 13 =? NormalStar) eqn:E0.
  { apply Z.eqb_eq in E0. intros _.
    destruct (Z.land (Z.shiftr st 8) 15 =? Spectral_Y) eqn:EY; unfold_class.
    - unfold Spectral_C, Spectral_Y. split; [left; repeat split; auto; lia|].
      intros _. lia.
    - apply Z.eqb_neq in EY. unfold Spectral_C, Spectral_Y in *.
      split; [left; repeat split; auto; lia|]. intros _. lia. }
  destruct (Z.shiftr st 13 =? WhiteDwarf) eqn:E1.
  { apply Z.eqb_eq in E1.
    destruct (WDClassCount <=? _) eqn:E; [discriminate|].
    apply Z.leb_gt in E. intros _. unfold_class. rewrite E1.
    split; [|discriminate]. right. left.
    repeat split; try assumption; try lia. }
  destruct (Z.shiftr st 13 =? NeutronStar) eqn:E2.
  { apply Z.eqb_eq in E2.
    destruct (NeutronStarClassCount <=? _) eqn:E; [discriminate|].
    apply Z.leb_gt in E. intros _. unfold_class. rewrite E2.
    split; [|discriminate]. right. right. left.
    repeat split; try assumption; try lia. }
  destruct (Z.shiftr st 13 =? BlackHole) eqn:E3; [|discriminate].
  apply Z.eqb_eq in E3. intros _. unfold_class. rewrite E3.
  split; [|discriminate]. right. right. right. auto.
Qed.

Lemma unpackV1_well_formed_witness :
  fst (unpackV1 blank 0x0f26) = true
  /\ unpacked (snd (unpackV1 blank 0x0f26))
  /\ (starType (snd (unpackV1 blank 0x0f26)) = NormalStar ->
      specClass (snd (unpackV1 blank 0x0f26)) <= Spectral_C /\
      specClass (snd (unpackV1 blank 0x0f26)) <> Spectral_Y).
Proof.
  split; [reflexivity|]. apply (unpackV1_well_formed blank 0x0f26). reflexivity.
Defined.

Lemma land_15_of_31 (x : Z) : Z.land x 31 < 16 -> Z.land x 15 = Z.land x 31.
Proof.
  change 31 with (Z.ones 5). change 15 with (Z.ones 4).
  rewrite !Z.land_ones by lia. change (2 ^ 5) with 32. change (2 ^ 4) with 16.
  intros H. Z.div_mod_to_equations. lia.
Qed.

(** X9: the two decoders differ on normal stars only: they do the same to a
    word whose star type is not [NormalStar], and to the word of a normal
    star whose five-bit class field is below 15. *)
Theorem unpackV1_unpackV2_agree (self : t) (st : Z) :
  Z.shiftr st 13 <> NormalStar \/ Z.land (Z.shiftr st 8) 0x1f < Spectral_Y ->
  unpackV1 self st = unpackV2 self st.
Proof.
  intros H. unfold unpackV1, unpackV2, set_starType. cbn [starType].
  destruct (Z.shiftr st 13 =? NormalStar) eqn:E0; [|reflexivity].
  apply Z.eqb_eq in E0. destruct H as [H|H]; [contradiction|].
  unfold Spectral_Y in *.
  rewrite (land_15_of_31 (Z.shiftr st 8)) by lia.
  destruct (Z.land (Z.shiftr st 8) 31 =? 15) eqn:E; [|reflexivity].
  apply Z.eqb_eq in E. lia.
Qed.

Lemma unpackV1_unpackV2_agree_witness :
  (Z.shiftr 0x2309 13 <> NormalStar
   \/ Z.land (Z.shiftr 0x2309 8) 0x1f < Spectral_Y)
  /\ unpackV1 blank 0x2309 = unpackV2 blank 0x2309.
Proof.
  split; [left; vm_compute; discriminate|].
  apply (unpackV1_unpackV2_agree blank 0x2309).
  left. vm_compute. discriminate.
Defined.

(** ** What the parser returns *)










Lemma parse_from_loop (st : string) (fuel : nat) (l : locals) :
  loop fuel st initial = Some (Ret l) -> (fuel <= String.length st + 12)%nat ->
  parse st = Some (Ret (result l)).
Proof.
  intros H Hle. unfold parse, parse_within.
  now rewrite (loop_more_fuel st fuel _ initial (Ret l) H Hle).
Qed.

Lemma current_first (ch : ascii) (rest : string) (l : locals) :
  i l = 0 -> current (String ch rest) l = ch.
Proof.
  intros Hi. apply current_at_0; [exact Hi | reflexivity].
Qed.

(** A turn of the loop at the first character of the string. *)
Lemma loop_first (ch : ascii) (rest : string) (fuel : nat) (l l' : locals) :
  i l = 0 -> state l <> EndState ->
  step (String ch EmptyString) l = Ret l' ->
  loop (S fuel) (String ch rest) l = loop fuel (String ch rest) l'.
Proof.
  intros Hi Hs Hstep.
  assert (H : step (String ch rest) l = Ret l').
  { rewrite <- Hstep. unfold step. now rewrite !current_first by exact Hi. }
  cbn [loop]. rewrite H. destruct (state l); congruence.
Qed.

(** X11: after a first character X, ? or Q the rest of the string is not
    read: X gives a black hole, ? a normal star with no field known, and Q a
    neutron star of class [Spectral_Q] without a subclass, whatever
    follows. *)
Theorem parse_first_character (rest : string) :
  parse (String "X" rest)
  = Some (Ret (mk BlackHole Spectral_Unknown Subclass_Unknown Lum_Unknown))
  /\ parse (String "?" rest)
     = Some (Ret (mk NormalStar Spectral_Unknown Subclass_Unknown Lum_Unknown))
  /\ parse (String "Q" rest)
     = Some (Ret (mk NeutronStar Spectral_Q Subclass_Unknown Lum_Unknown)).
Proof.
  pose (final ty sp := mkLocals 0 EndState ty sp Lum_Unknown Subclass_Unknown).
  pose (neutron s := mkLocals 0 s NeutronStar Spectral_Q Lum_Unknown
                              Subclass_Unknown).
  repeat split.
  - apply (parse_from_loop _ 1 (final BlackHole Spectral_Unknown)); [|lia].
    now rewrite (loop_first "X" rest 0 initial
                   (final BlackHole Spectral_Unknown)).
  - apply (parse_from_loop _ 1 (final NormalStar Spectral_Unknown)); [|lia].
    now rewrite (loop_first "?" rest 0 initial
                   (final NormalStar Spectral_Unknown)).
  - apply (parse_from_loop _ 4 (final NeutronStar Spectral_Q)); [|lia].
    rewrite (loop_first "Q" rest 3 initial (neutron NeutronStarTypeState))
      by (reflexivity || discriminate).
    rewrite (loop_first "Q" rest 2 _ (neutron NeutronStarExtendedTypeState))
      by (reflexivity || discriminate).
    rewrite (loop_first "Q" rest 1 _ (neutron NeutronStarSubclassState))
      by (reflexivity || discriminate).
    now rewrite (loop_first "Q" rest 0 _ (final NeutronStar Spectral_Q)).
Qed.

Lemma parse_reads_all :
  forallb (fun name => forallb (fun d => forallb (parse_reads name d)
                                                 luminosity_texts)
                               (range 10))
          class_texts = true.
Proof. vm_compute. reflexivity. Qed.

(** X12: [parse] reads the compact notation: the letters of a spectral
    class of normal stars, a digit and the letters of a luminosity class (or
    nothing) give the normal star of this class, subclass and luminosity
    class; so does the same text with a decimal point and a second digit
    after the first, the second digit being dropped. *)
Theorem parse_compact_notation (name text : string) (sp d lu : Z) :
  In (name, sp) class_texts -> 0 <= d <= 9 -> In (text, lu) luminosity_texts ->
  parse (name ++ String (digit_char d) text)
  = Some (Ret (mk NormalStar sp d lu))
  /\ forall d' : Z,
       0 <= d' <= 9 ->
       parse (name ++ String (digit_char d)
                (String "." (String (digit_char d') text)))
       = Some (Ret (mk NormalStar sp d lu)).
Proof.
  intros Hname Hd Htext.
  pose proof parse_reads_all as H.
  rewrite forallb_forall in H. specialize (H _ Hname).
  rewrite forallb_forall in H. specialize (H d (In_range 10 d ltac:(lia))).
  rewrite forallb_forall in H. specialize (H _ Htext).
  unfold parse_reads in H. cbn [fst snd] in H.
  apply andb_true_iff in H. destruct H as [H1 H2].
  split.
  - apply parses_to_eq in H1. exact H1.
  - intros d' Hd'. rewrite forallb_forall in H2.
    specialize (H2 d' (In_range 10 d' ltac:(lia))).
    apply parses_to_eq in H2. exact H2.
Qed.

Lemma parse_compact_notation_witness :
  (In ("G", Spectral_G) class_texts /\ 0 <= 2 <= 9
   /\ In ("V", Lum_V) luminosity_texts)
  /\ parse "G2V" = Some (Ret (mk NormalStar Spectral_G 2 Lum_V))
  /\ forall d' : Z,
       0 <= d' <= 9 ->
       parse ("G" ++ String (digit_char 2)
                (String "." (String (digit_char d') "V")))
       = Some (Ret (mk NormalStar Spectral_G 2 Lum_V)).
Proof.
  split.
  - split; [simpl; tauto|]. split; [lia|]. simpl; tauto.
  - apply (parse_compact_notation "G" "V" Spectral_G 2 Lum_V).
    + simpl; tauto.
    + lia.
    + simpl; tauto.
Defined.

(** ** How far the parser reads *)

Lemma length_append (s1 s2 : string) :
  String.length (s1 ++ s2) = (String.length s1 + String.length s2)%nat.
Proof. induction s1 as [|c s1 IH]; simpl; [reflexivity | now rewrite IH]. Qed.

Lemma append_String (s1 : string) (c : ascii) (s2 s3 : string) :
  (s1 ++ String c s2) ++ s3 = s1 ++ String c (s2 ++ s3).
Proof. induction s1 as [|a s1 IH]; simpl; [reflexivity | now rewrite IH]. Qed.

Lemma append_char (s1 : string) (c : ascii) (s3 : string) :
  (s1 ++ String c EmptyString) ++ s3 = s1 ++ String c s3.
Proof. apply append_String. Qed.

Lemma current_prefix (pre rest : string) (l : locals) :
  0 <= i l < Z.of_nat (String.length pre) ->
  current (pre ++ rest) l = current pre l.
Proof.
  intros H. unfold current. rewrite length_append.
  destruct (i l <? Z.of_nat (String.length pre)) eqn:E1;
    [|apply Z.ltb_ge in E1; lia].
  destruct (i l <? Z.of_nat (String.length pre + String.length rest)) eqn:E2;
    [|apply Z.ltb_ge in E2; lia].
  rewrite <- append_correct1 by lia. reflexivity.
Qed.

Lemma step_prefix (pre rest : string) (l : locals) :
  0 <= i l < Z.of_nat (String.length pre) ->
  step (pre ++ rest) l = step pre l.
Proof. intros H. unfold step. now rewrite current_prefix. Qed.

(** A run that stays inside [pre] is the same on every string that starts
    with [pre]. *)
Lemma loop_prefix (fuel : nat) (pre rest : string) (l : locals) :
  loop_inside fuel pre l = true ->
  loop fuel (pre ++ rest) l = loop fuel pre l.
Proof.
  revert l. induction fuel as [|fuel IH]; intros l H.
  - simpl in *. destruct (state l); try discriminate. reflexivity.
  - simpl in *. destruct (state l) eqn:Es; try reflexivity.
    all: apply andb_true_iff in H; destruct H as [Hi H];
      apply andb_true_iff in Hi; destruct Hi as [Hi1 Hi2];
      apply Z.leb_le in Hi1; apply Z.ltb_lt in Hi2;
      rewrite step_prefix by lia;
      destruct (step pre l) as [l'| |]; try reflexivity;
      apply IH; exact H.
Qed.

Lemma parse_prefix (pre rest : string) (c : t) :
  parse_stops_inside pre = true ->
  parse pre = Some (Ret c) -> parse (pre ++ rest) = Some (Ret c).
Proof.
  unfold parse_stops_inside. intros Hin Hp. unfold parse, parse_within in *.
  destruct (loop (String.length pre + 12) pre initial) as [r|] eqn:El;
    [|discriminate].
  rewrite <- (loop_prefix _ pre rest initial Hin) in El.
  rewrite (loop_more_fuel _ _ (String.length (pre ++ rest) + 12) _ _ El).
  - exact Hp.
  - rewrite length_append. lia.
Qed.

Lemma parse_stops_all :
  forallb (fun name => forallb (fun d => forallb (parse_stops name d)
                                                 closed_luminosity_texts)
                               (range 10))
          class_texts = true.
Proof. vm_compute. reflexivity. Qed.

(** X20: what follows a complete class is ignored: after the letters of a
    spectral class of normal stars, a digit, and one of the luminosity
    classes Ia0, Ib, III, IV and VI, [parse] returns this class whatever the
    rest of the string is. *)
Theorem parse_ignores_trailing (name text rest : string) (sp d lu : Z) :
  In (name, sp) class_texts -> 0 <= d <= 9 ->
  In (text, lu) closed_luminosity_texts ->
  parse (name ++ String (digit_char d) (text ++ rest))
  = Some (Ret (mk NormalStar sp d lu)).
Proof.
  intros Hname Hd Htext.
  pose proof parse_stops_all as H.
  rewrite forallb_forall in H. specialize (H _ Hname).
  rewrite forallb_forall in H. specialize (H d (In_range 10 d ltac:(lia))).
  rewrite forallb_forall in H. specialize (H _ Htext).
  unfold parse_stops in H. cbn [fst snd] in H.
  apply andb_true_iff in H. destruct H as [H1 H2].
  apply parses_to_eq in H2.
  rewrite <- append_String. apply parse_prefix; [exact H1 | exact H2].
Qed.

Lemma parse_ignores_trailing_witness :
  (In ("K", Spectral_K) class_texts /\ 0 <= 1 <= 9
   /\ In ("III", Lum_III) closed_luminosity_texts)
  /\ parse ("K" ++ String (digit_char 1) ("III" ++ " (variable)"))
     = Some (Ret (mk NormalStar Spectral_K 1 Lum_III)).
Proof.
  split.
  - split; [simpl; tauto|]. split; [lia|]. simpl; tauto.
  - apply (parse_ignores_trailing "K" "III" " (variable)" Spectral_K 1 Lum_III).
    + simpl; tauto.
    + lia.
    + simpl; tauto.
Defined.

Lemma current_at (pre : string) (c : ascii) (tail : string) (l : locals) :
  i l = Z.of_nat (String.length pre) ->
  current (pre ++ String c tail) l = c.
Proof.
  intros Hi. unfold current. rewrite length_append, Hi. cbn [String.length].
  destruct (_ <? _) eqn:E; [|apply Z.ltb_ge in E; lia].
  rewrite Nat2Z.id.
  change (String.length pre) with (0 + String.length pre)%nat.
  now rewrite <- append_correct2.
Qed.

(** A turn of the loop at the character that follows [pre]. *)
Lemma loop_at (pre : string) (c : ascii) (tail : string) (fuel : nat)
    (l l' : locals) :
  i l = Z.of_nat (String.length pre) -> state l <> EndState ->
  step (pre ++ String c EmptyString) l = Ret l' ->
  loop (S fuel) (pre ++ String c tail) l = loop fuel (pre ++ String c tail) l'.
Proof.
  intros Hi Hs Hstep.
  assert (H : step (pre ++ String c tail) l = Ret l').
  { rewrite <- Hstep. unfold step. now rewrite !current_at by exact Hi. }
  cbn [loop]. rewrite H. destruct (state l); congruence.
Qed.

(** [WDExtendedTypeState] passes over the letters of [ext], one a turn. *)
Lemma loop_extension (ext pre tail : string) (fuel : nat) (sp : Z) :
  extension_letters ext = true ->
  Z.of_nat (String.length pre + String.length ext) < 2 ^ 32 ->
  loop (String.length ext + fuel) (pre ++ ext ++ tail)
       (white_dwarf_at (Z.of_nat (String.length pre)) WDExtendedTypeState
                       sp Subclass_Unknown)
  = loop fuel (pre ++ ext ++ tail)
         (white_dwarf_at (Z.of_nat (String.length pre + String.length ext))
                         WDExtendedTypeState sp Subclass_Unknown).
Proof.
  revert pre. induction ext as [|c ext IH]; intros pre Hext Hlen.
  - cbn [String.length Nat.add]. now rewrite Nat.add_0_r.
  - cbn [extension_letters] in Hext. apply andb_true_iff in Hext.
    destruct Hext as [Hc Hext].
    cbn [String.length] in *. cbn [append Nat.add].
    rewrite (loop_at pre c (ext ++ tail) _ _
               (white_dwarf_at (Z.of_nat (String.length pre) + 1)
                               WDExtendedTypeState sp Subclass_Unknown)).
    + rewrite <- (append_char pre c (ext ++ tail)).
      replace (Z.of_nat (String.length pre) + 1)
        with (Z.of_nat (String.length (pre ++ String c EmptyString)))
        by (rewrite length_append; cbn [String.length]; lia).
      rewrite IH.
      * f_equal. f_equal. rewrite length_append. cbn [String.length]. lia.
      * exact Hext.
      * rewrite length_append. cbn [String.length]. lia.
    + reflexivity.
    + discriminate.
    + unfold step. rewrite current_at by reflexivity.
      cbn [state white_dwarf_at].
      fold (extension_letter c). rewrite Hc.
      unfold white_dwarf_at, advance.
      cbn [i state l_starType l_specClass l_lumClass l_subclass].
      f_equal. f_equal. unfold u32. apply Z.mod_small. lia.
Qed.

Lemma digit_char_read_all : forallb digit_char_read (range 10) = true.
Proof. vm_compute. reflexivity. Qed.

Lemma digit_char_facts (d : Z) :
  0 <= d <= 9 ->
  isdigit (digit_char d) = true /\ digit_value (digit_char d) = d
  /\ extension_letter (digit_char d) = false.
Proof.
  intros Hd. pose proof digit_char_read_all as H.
  rewrite forallb_forall in H. specialize (H d (In_range 10 d ltac:(lia))).
  unfold digit_char_read in H.
  apply andb_true_iff in H. destruct H as [H H3].
  apply andb_true_iff in H. destruct H as [H1 H2].
  apply Z.eqb_eq in H2. apply negb_true_iff in H3. auto.
Qed.

(** X21: a white dwarf is read through any number of extension letters: D
    and the letter of a class (A, B, C, O, Q, X or Z), then letters among A,
    B, C, O, Q, Z, X, V, P, H and E, then a digit, give the white dwarf of
    this class with the digit as its subclass, whatever follows the digit.
    The string is short enough for the index not to wrap around. *)
Theorem parse_white_dwarf (name ext rest : string) (sp d : Z) :
  In (name, sp) white_dwarf_texts -> extension_letters ext = true ->
  0 <= d <= 9 -> Z.of_nat (String.length ext) < 2 ^ 32 - 3 ->
  parse (name ++ ext ++ String (digit_char d) rest)
  = Some (Ret (mk WhiteDwarf sp d Lum_Unknown)).
Proof.
  intros Hname Hext Hd Hlen.
  destruct (digit_char_facts d Hd) as (Hdigit & Hvalue & Hletter).
  set (tail := String (digit_char d) rest).
  assert (H : exists a : ascii,
            name = String "D" (String a EmptyString)
            /\ step "D" initial
               = Ret (white_dwarf_at 1 WDTypeState Spectral_D Subclass_Unknown)
            /\ step (String "D" (String a EmptyString))
                    (white_dwarf_at 1 WDTypeState Spectral_D Subclass_Unknown)
               = Ret (white_dwarf_at 2 WDExtendedTypeState sp Subclass_Unknown)).
  { unfold white_dwarf_texts in Hname. cbn [In] in Hname.
    repeat match goal with
    | H : _ \/ _ |- _ => destruct H as [H|H]
    | H : (_, _) = (_, _) |- _ => injection H as <- <-
    | H : False |- _ => contradiction
    end; eexists; (split; [reflexivity|]); split; reflexivity. }
  destruct H as (a & -> & Hstep0 & Hstep1).
  apply (parse_from_loop _ (S (S (String.length ext + 2)))
           (white_dwarf_at (Z.of_nat (String.length ext) + 3) EndState sp d)).
  2: { cbn [append String.length]. rewrite length_append. lia. }
  cbn [append].
  rewrite (loop_at EmptyString "D" (String a (ext ++ tail)) _ initial
             (white_dwarf_at 1 WDTypeState Spectral_D Subclass_Unknown)
             eq_refl ltac:(discriminate) Hstep0).
  cbn [append].
  rewrite (loop_at "D" a (ext ++ tail) _
             (white_dwarf_at 1 WDTypeState Spectral_D Subclass_Unknown)
             (white_dwarf_at 2 WDExtendedTypeState sp Subclass_Unknown)
             eq_refl ltac:(discriminate) Hstep1).
  pose proof (loop_extension ext (String "D" (String a EmptyString)) tail 2 sp
                Hext) as Hloop.
  cbn [append String.length] in Hloop. cbn [append].
  change (Z.of_nat 2) with 2 in Hloop. rewrite Hloop by lia. clear Hloop.
  set (pre := String "D" (String a ext)).
  change (String "D" (String a (ext ++ tail)))
    with (pre ++ String (digit_char d) rest).
  change (Z.of_nat (2 + String.length ext)) with (Z.of_nat (String.length pre)).
  rewrite (loop_at pre (digit_char d) rest 1 _
             (white_dwarf_at (Z.of_nat (String.length pre)) WDSubclassState sp
                             Subclass_Unknown)).
  2: reflexivity.
  2: discriminate.
  2: { unfold step. rewrite current_at by reflexivity.
       cbn [state white_dwarf_at]. fold (extension_letter (digit_char d)).
       now rewrite Hletter. }
  rewrite (loop_at pre (digit_char d) rest 0 _
             (white_dwarf_at (Z.of_nat (String.length ext) + 3) EndState sp d)).
  - reflexivity.
  - reflexivity.
  - discriminate.
  - unfold step. rewrite current_at by reflexivity.
    cbn [state white_dwarf_at]. rewrite Hdigit, Hvalue.
    unfold white_dwarf_at, set_sub, advance, set_state.
    cbn [i state l_starType l_specClass l_lumClass l_subclass].
    f_equal. f_equal. unfold pre. cbn [String.length].
    unfold u32. rewrite Z.mod_small; lia.
Qed.

Lemma parse_white_dwarf_witness :
  (In ("DA", Spectral_DA) white_dwarf_texts /\ extension_letters "V" = true
   /\ 0 <= 4 <= 9 /\ Z.of_nat (String.length "V") < 2 ^ 32 - 3)
  /\ parse ("DA" ++ "V" ++ String (digit_char 4) " pulsating")
     = Some (Ret (mk WhiteDwarf Spectral_DA 4 Lum_Unknown)).
Proof.
  split.
  - split; [simpl; tauto|]. split; [reflexivity|]. split; [lia|].
    vm_compute. reflexivity.
  - apply (parse_white_dwarf "DA" "V" " pulsating" Spectral_DA 4).
    + simpl; tauto.
    + reflexivity.
    + lia.
    + vm_compute. reflexivity.
Defined.

Lemma parse_reads_subdwarf_all :
  forallb (fun name => forallb (fun d => forallb (parse_reads_subdwarf name d)
                                                 luminosity_texts)
                               (range 10))
          class_texts = true.
Proof. vm_compute. reflexivity. Qed.

Lemma parse_drops_s_all : forallb parse_drops_s characters = true.
Proof. vm_compute. reflexivity. Qed.

Lemma In_characters (c : ascii) : In c characters.
Proof.
  unfold characters. apply in_map_iff. exists (nat_of_ascii c).
  split; [apply ascii_nat_embedding|].
  apply in_seq. pose proof (nat_ascii_bounded c). lia.
Qed.

Lemma parse_drops_s_true (c : ascii) : parse_drops_s c = true.
Proof.
  pose proof parse_drops_s_all as H.
  rewrite forallb_forall in H. exact (H c (In_characters c)).
Qed.

Lemma parse_s_stops (c : ascii) :
  c <> "d"%char ->
  parse_stops_inside (String "s" (String c EmptyString)) = true
  /\ parses_to (String "s" (String c EmptyString))
               (mk NormalStar Spectral_Unknown Subclass_Unknown Lum_Unknown)
     = true.
Proof.
  intros Hc. pose proof (parse_drops_s_true c) as H. unfold parse_drops_s in H.
  apply orb_true_iff in H. destruct H as [H|H].
  - apply ch_is_true in H. contradiction.
  - apply andb_true_iff in H. exact H.
Qed.

Lemma parse_s_other (c : ascii) (rest : string) :
  c <> "d"%char ->
  parse (String "s" (String c EmptyString) ++ rest)
  = Some (Ret (mk NormalStar Spectral_Unknown Subclass_Unknown Lum_Unknown)).
Proof.
  intros Hc. destruct (parse_s_stops c Hc) as [H1 H2].
  apply parse_prefix; [exact H1|].
  apply parses_to_eq. exact H2.
Qed.

(** X22: the prefix sd makes a subdwarf: before the compact notation of a
    normal star it gives the luminosity class VI when the text has none, and
    leaves the one the text has; an s that no d follows ends the parse with
    no field known, whatever comes after it. *)
Theorem parse_subdwarf_prefix :
  (forall (name text : string) (sp d lu : Z),
     In (name, sp) class_texts -> 0 <= d <= 9 ->
     In (text, lu) luminosity_texts ->
     parse ("sd" ++ name ++ String (digit_char d) text)
     = Some (Ret (mk NormalStar sp d
                     (if lu =? Lum_Unknown then Lum_VI else lu))))
  /\ (forall (c : ascii) (rest : string),
        c <> "d"%char ->
        parse (String "s" (String c rest))
        = Some (Ret (mk NormalStar Spectral_Unknown Subclass_Unknown
                        Lum_Unknown)))
  /\ parse "s"
     = Some (Ret (mk NormalStar Spectral_Unknown Subclass_Unknown Lum_Unknown)).
Proof.
  split; [|split; [|vm_compute; reflexivity]].
  - intros name text sp d lu Hname Hd Htext.
    pose proof parse_reads_subdwarf_all as H.
    rewrite forallb_forall in H. specialize (H _ Hname).
    rewrite forallb_forall in H. specialize (H d (In_range 10 d ltac:(lia))).
    rewrite forallb_forall in H. specialize (H _ Htext).
    unfold parse_reads_subdwarf in H. cbn [fst snd] in H.
    apply parses_to_eq in H. exact H.
  - intros c rest Hc. exact (parse_s_other c rest Hc).
Qed.

End StellarClassProperties.

Section JPLEphemerisProperties.

Import JPLEphemeris ExampleFiles.
Local Open Scope Z_scope.

(** ** Byte order *)

Lemma detect_byte_order_rule (deNum : Z) :
  byte_order_rule deNum (detect_byte_order deNum).
Proof.
  unfold detect_byte_order, INPOP_DE_COMPATIBLE, DE200.
  destruct (deNum =? 100) eqn:E1.
  { apply Z.eqb_eq in E1. subst. constructor. reflexivity. }
  apply Z.eqb_neq in E1.
  destruct (bswap_32 deNum =? 100) eqn:E2.
  { apply Z.eqb_eq in E2. rewrite E2. now constructor. }
  apply Z.eqb_neq in E2.
  destruct (2 ^ 15 <? deNum) eqn:E3, (200 <=? bswap_32 deNum) eqn:E4;
    cbn [andb];
    rewrite ?Z.ltb_lt, ?Z.ltb_ge, ?Z.leb_le, ?Z.leb_gt in *.
  1: apply rule_DE_swap; lia.
  all: destruct (deNum <=? 2 ^ 15) eqn:E5, (200 <=? deNum) eqn:E6;
    cbn [andb];
    rewrite ?Z.ltb_lt, ?Z.ltb_ge, ?Z.leb_le, ?Z.leb_gt in *;
    first [apply rule_DE_same; lia | apply rule_invalid; lia].
Qed.

Lemma byte_order_rule_functional (deNum : Z) (r r' : option (bool * Z)) :
  byte_order_rule deNum r -> byte_order_rule deNum r' -> r = r'.
Proof.
  intros H H'. destruct H; destruct H'; try reflexivity; try lia; congruence.
Qed.

(** What [load] returns after a header in which the byte order is found. *)
Lemma load_keeps_byte_order (s : istream) (e : t) :
  load s = Ret (Some e) ->
  good (snd (read (Z.to_nat header_size) s)) = true /\
  detect_byte_order
    (fh_deNum (decode_header (fst (read (Z.to_nat header_size) s))))
  = Some (swapBytes e, DENum e).
Proof.
  unfold load.
  destruct (read (Z.to_nat header_size) s) as [bytes s1]. cbn [fst snd].
  destruct (good s1); cbn [negb]; [|discriminate].
  destruct (detect_byte_order _) as [[swap n]|]; [|discriminate].
  destruct (load_coeffInfo _ _ _ _) as [infos rs].
  match goal with
  | |- context [let (_, _) := ?p in _] => destruct p as [rs' s2]
  end.
  destruct (negb (good _)); [discriminate|].
  destruct (to_uint32 _) as [n'| |]; cbn [bind]; try discriminate.
  destruct (read_records _ _ _ _); [|discriminate].
  intros H. injection H as <-. split; reflexivity.
Qed.

(** [small_ephemeris] is what [load] makes of [small_file]. *)
Lemma load_small_file :
  load (mkStream small_file true) = Ret (Some small_ephemeris).
Proof. vm_compute. reflexivity. Qed.

Example detect_INPOP_same : detect_byte_order 100 = Some (false, 100).
Proof. reflexivity. Qed.
Example detect_INPOP_swap : detect_byte_order 0x64000000 = Some (true, 100).
Proof. reflexivity. Qed.
Example detect_DE_swap : detect_byte_order 0x95010000 = Some (true, 405).
Proof. reflexivity. Qed.
Example detect_DE_same : detect_byte_order 405 = Some (false, 405).
Proof. reflexivity. Qed.
Example detect_invalid : detect_byte_order 0 = None.
Proof. reflexivity. Qed.

Lemma load_coeffInfo_descriptors (swap : bool) (infos : list JPLECoeff)
    (i recordSize : Z) :
  map (fun c => (nCoeffs c, nGranules c))
      (fst (load_coeffInfo swap i infos recordSize))
  = map (fun c => (MAYBE_SWAP_UINT32 swap (nCoeffs c),
                   MAYBE_SWAP_UINT32 swap (nGranules c))) infos.
Proof.
  revert i recordSize. induction infos as [|c infos IH]; intros i recordSize.
  - reflexivity.
  - cbn [load_coeffInfo].
    destruct (load_coeffInfo swap (i + 1) infos _) as [rest rs] eqn:E.
    cbn [fst map nCoeffs nGranules]. f_equal.
    specialize (IH (i + 1)
      (u32 (recordSize
            + MAYBE_SWAP_UINT32 swap (nCoeffs c)
              * MAYBE_SWAP_UINT32 swap (nGranules c)
              * (if i =? JPLEph_NItems - 1 then 2 else 3)))).
    cbn [nCoeffs nGranules] in E. rewrite E in IH. exact IH.
Qed.

(** The descriptors of an ephemeris that [load] returns are those of the
    header, in the byte order found. *)
Lemma load_copies_descriptors (s : istream) (e : t) :
  load s = Ret (Some e) ->
  map (fun c => (nCoeffs c, nGranules c)) (coeffInfo e)
  = map (fun c => (MAYBE_SWAP_UINT32 (swapBytes e) (nCoeffs c),
                   MAYBE_SWAP_UINT32 (swapBytes e) (nGranules c)))
        (fh_coeffInfo
           (decode_header (fst (read (Z.to_nat header_size) s)))).
Proof.
  unfold load.
  destruct (read (Z.to_nat header_size) s) as [bytes s1]. cbn [fst snd].
  destruct (good s1); cbn [negb]; [|discriminate].
  destruct (detect_byte_order _) as [[swap n]|]; [|discriminate].
  destruct (load_coeffInfo _ _ _ _) as [infos rs] eqn:Einfos.
  match goal with
  | |- context [let (_, _) := ?p in _] => destruct p as [rs' s2]
  end.
  destruct (negb (good _)); [discriminate|].
  destruct (to_uint32 _) as [n'| |]; cbn [bind]; try discriminate.
  destruct (read_records _ _ _ _); [|discriminate].
  intros H. injection H as <-. cbn [coeffInfo swapBytes].
  rewrite <- (load_coeffInfo_descriptors swap _ 0 0), Einfos. reflexivity.
Qed.

(** C5: [load] returns an ephemeris for a file whose descriptors give 33
    coefficients to Mercury and no granule to Venus, and the assertions of
    [getPlanetPosition] fail for this ephemeris; whatever the file, the
    numbers of coefficients and of granules of the ephemeris returned are the
    ones found in the header: [load] has no test on them. *)
Theorem load_does_not_check_coefficients :
  (load (mkStream unchecked_file true) = Ret (Some unchecked_ephemeris)
   /\ array_get (coeffInfo unchecked_ephemeris) (item_value JPLEph_Mercury)
      = Ret (mkCoeff 0 33 4)
   /\ array_get (coeffInfo unchecked_ephemeris) (item_value JPLEph_Venus)
      = Ret (mkCoeff 396 13 0)
   /\ getPlanetPosition unchecked_ephemeris JPLEph_Mercury 0.5%float
      = AssertFail
   /\ getPlanetPosition unchecked_ephemeris JPLEph_Venus 0.5%float
      = AssertFail)
  /\ (forall (s : istream) (e : t),
        load s = Ret (Some e) ->
        map (fun c => (nCoeffs c, nGranules c)) (coeffInfo e)
        = map (fun c => (MAYBE_SWAP_UINT32 (swapBytes e) (nCoeffs c),
                         MAYBE_SWAP_UINT32 (swapBytes e) (nGranules c)))
              (fh_coeffInfo
                 (decode_header (fst (read (Z.to_nat header_size) s))))).
Proof.
  split; [|exact load_copies_descriptors].
  repeat split; vm_compute; reflexivity.
Qed.

Lemma load_does_not_check_coefficients_witness :
  load (mkStream unchecked_file true) = Ret (Some unchecked_ephemeris)
  /\ map (fun c => (nCoeffs c, nGranules c)) (coeffInfo unchecked_ephemeris)
     = map (fun c => (MAYBE_SWAP_UINT32 (swapBytes unchecked_ephemeris) (nCoeffs c),
                      MAYBE_SWAP_UINT32 (swapBytes unchecked_ephemeris) (nGranules c)))
           (fh_coeffInfo
              (decode_header
                 (fst (read (Z.to_nat header_size)
                            (mkStream unchecked_file true))))).
Proof.
  split; [vm_compute; reflexivity|].
  apply (proj2 load_does_not_check_coefficients
           (mkStream unchecked_file true) unchecked_ephemeris).
  vm_compute. reflexivity.
Defined.

(** C7 as stated fails: in the ephemeris [load] returns for [small_file], at
    the day 0.5, the barycenter is at x = 0.1, and the position of the Earth
    plus the scaled position of the Moon is at x = 0.1000000000003638. *)
Lemma earth_moon_recombination_counterexample :
  exists (e : t) (earth moon emb : Vector3d),
    load (mkStream small_file true) = Ret (Some e)
    /\ getPlanetPosition e JPLEph_Earth 0.5%float = Ret earth
    /\ getPlanetPosition e JPLEph_Moon 0.5%float = Ret moon
    /\ getPlanetPosition e JPLEph_EarthMoonBary 0.5%float = Ret emb
    /\ PrimFloat.eqb
         (fst (fst (v3_add earth
                      (v3_scale moon (1 / (earthMoonMassRatio e + 1))%float))))
         (fst (fst emb)) = false
    /\ v3_add earth (v3_scale moon (1 / (earthMoonMassRatio e + 1))%float)
       <> emb.
Proof.
  eexists. eexists. eexists. eexists.
  split; [vm_compute; reflexivity|].
  split; [vm_compute; reflexivity|].
  split; [vm_compute; reflexivity|].
  split; [vm_compute; reflexivity|].
  split; [vm_compute; reflexivity|].
  intros H.
  apply (f_equal (fun v : Vector3d => PrimFloat.eqb (fst (fst v)) (double_of_bits bits_tenth))) in H.
  vm_compute in H. discriminate H.
Qed.

(** C7, as amended: the position of the Earth is the position of the
    barycenter of the Earth and the Moon minus the position of the Moon
    scaled by [1 / (earthMoonMassRatio + 1)], each operation rounded as the
    arithmetic of doubles rounds it; the query for the Earth returns a
    position exactly when both queries do, and fails as the first of them
    that fails. *)
Theorem getPlanetPosition_Earth (e : t) (tjd : float) :
  getPlanetPosition e JPLEph_Earth tjd
  = (embPos <- getPlanetPosition e JPLEph_EarthMoonBary tjd ;;
     moonPos <- getPlanetPosition e JPLEph_Moon tjd ;;
     Ret (v3_sub embPos
            (v3_scale moonPos (1 / (earthMoonMassRatio e + 1))%float)))
  /\ (forall earth : Vector3d,
        getPlanetPosition e JPLEph_Earth tjd = Ret earth <->
        exists embPos moonPos : Vector3d,
          getPlanetPosition e JPLEph_EarthMoonBary tjd = Ret embPos /\
          getPlanetPosition e JPLEph_Moon tjd = Ret moonPos /\
          earth = v3_sub embPos
                    (v3_scale moonPos (1 / (earthMoonMassRatio e + 1))%float)).
Proof.
  split; [reflexivity|].
  intros earth. cbn [getPlanetPosition].
  destruct (stored_position e JPLEph_EarthMoonBary tjd) as [emb| |];
    cbn [bind].
  - destruct (stored_position e JPLEph_Moon tjd) as [moon| |]; cbn [bind].
    + split.
      * intros H. injection H as <-. eauto.
      * intros (e1 & m1 & H1 & H2 & ->). congruence.
    + split; [discriminate|]. intros (e1 & m1 & _ & H2 & _). discriminate.
    + split; [discriminate|]. intros (e1 & m1 & _ & H2 & _). discriminate.
  - split; [discriminate|]. intros (e1 & m1 & H1 & _). discriminate.
  - split; [discriminate|]. intros (e1 & m1 & H1 & _). discriminate.
Qed.

Lemma clamp_idempotent (e : t) (tjd : float) :
  PrimFloat.ltb (endDate e) (startDate e) = false ->
  clamp e (clamp e tjd) = clamp e tjd.
Proof.
  intros H. unfold clamp.
  destruct (PrimFloat.ltb tjd (startDate e)) eqn:E1.
  - rewrite H. destruct (PrimFloat.ltb (startDate e) (startDate e)); reflexivity.
  - destruct (PrimFloat.ltb (endDate e) tjd) eqn:E2.
    + rewrite H. destruct (PrimFloat.ltb (endDate e) (endDate e)); reflexivity.
    + rewrite E1, E2. reflexivity.
Qed.

Lemma clamp_below (e : t) (tjd : float) :
  PrimFloat.ltb tjd (startDate e) = true -> clamp e tjd = startDate e.
Proof. intros H. unfold clamp. now rewrite H. Qed.

Lemma clamp_above (e : t) (tjd : float) :
  PrimFloat.ltb tjd (startDate e) = false ->
  PrimFloat.ltb (endDate e) tjd = true -> clamp e tjd = endDate e.
Proof. intros H1 H2. unfold clamp. now rewrite H1, H2. Qed.

Lemma stored_position_clamp (e : t) (planet : JPLEphemItem) (tjd : float) :
  PrimFloat.ltb (endDate e) (startDate e) = false ->
  stored_position e planet (clamp e tjd) = stored_position e planet tjd.
Proof.
  intros H. unfold stored_position. now rewrite (clamp_idempotent e tjd H).
Qed.

Lemma getPlanetPosition_clamp (e : t) (planet : JPLEphemItem) (tjd : float) :
  PrimFloat.ltb (endDate e) (startDate e) = false ->
  getPlanetPosition e planet (clamp e tjd) = getPlanetPosition e planet tjd.
Proof.
  intros H. destruct planet; cbn [getPlanetPosition];
    rewrite ?(stored_position_clamp e _ tjd H); reflexivity.
Qed.

Lemma to_uint32_range (x : float) (n : Z) :
  to_uint32 x = Ret n -> 0 <= n < 2 ^ 32.
Proof.
  unfold to_uint32. destruct (truncate x) as [z|]; [|discriminate].
  destruct ((0 <=? z) && (z <? 2 ^ 32)) eqn:E; [|discriminate].
  intros H. injection H as <-.
  apply andb_true_iff in E. destruct E as [E1 E2].
  apply Z.leb_le in E1. apply Z.ltb_lt in E2. lia.
Qed.

Lemma record_number_below (e : t) (tjd : float) (n : Z) :
  records e <> [] ->
  record_number e tjd = Ret n -> 0 <= n < Z.of_nat (length (records e)).
Proof.
  intros Hne. unfold record_number, record_number_of_time.
  destruct (to_uint32 _) as [r| |] eqn:Er; cbn [bind]; try discriminate.
  apply to_uint32_range in Er.
  assert (Hlen : 0 < Z.of_nat (length (records e))).
  { destruct (records e); [contradiction|]. simpl length. lia. }
  destruct (Z.of_nat (length (records e)) <=? r) eqn:E;
    intros H; injection H as <-.
  - apply Z.leb_le in E. unfold u32, u64.
    rewrite (Z.mod_small (_ - 1) (2 ^ 64)) by lia.
    rewrite Z.mod_small by lia. lia.
  - apply Z.leb_gt in E. lia.
Qed.

(** The hypothesis of a record cannot be dropped: without a record the
    number selected wraps around to [2 ^ 32 - 1], and no position is
    computed. *)
Lemma to_uint32_cases (x : float) :
  (exists n : Z, to_uint32 x = Ret n) \/ to_uint32 x = Undef.
Proof.
  unfold to_uint32. destruct (truncate x) as [z|]; [|now right].
  destruct (_ && _); eauto.
Qed.

Lemma stored_position_no_record (e : t) (planet : JPLEphemItem) (tjd : float) :
  records e = [] -> stored_position e planet tjd = Undef.
Proof.
  intros Hrec. unfold stored_position, record_number, record_number_of_time.
  destruct (to_uint32_cases
              ((clamp e tjd - startDate e) / daysPerInterval e)%float)
    as [[n Hn]|Hn]; rewrite Hn; cbn [bind]; [|reflexivity].
  pose proof (to_uint32_range _ _ Hn) as Hrange.
  rewrite Hrec. cbn [length Z.of_nat].
  destruct (0 <=? n) eqn:E; [|apply Z.leb_gt in E; lia].
  reflexivity.
Qed.

(** X23: in an ephemeris whose end is not before its start and that has a
    record, the position of an item at a time is its position at the time
    clamped to the span of the ephemeris, be it a position or a failure; the
    record selected is one of the records; and a time outside the span gives
    what the nearer end of the span gives. *)
Theorem getPlanetPosition_clamps (e : t) (planet : JPLEphemItem) (tjd : float) :
  PrimFloat.ltb (endDate e) (startDate e) = false ->
  records e <> [] ->
  getPlanetPosition e planet tjd = getPlanetPosition e planet (clamp e tjd)
  /\ (forall recNo : Z,
        record_number e (clamp e tjd) = Ret recNo ->
        0 <= recNo < Z.of_nat (length (records e)))
  /\ (PrimFloat.ltb tjd (startDate e) = true ->
      getPlanetPosition e planet tjd = getPlanetPosition e planet (startDate e))
  /\ (PrimFloat.ltb tjd (startDate e) = false ->
      PrimFloat.ltb (endDate e) tjd = true ->
      getPlanetPosition e planet tjd = getPlanetPosition e planet (endDate e)).
Proof.
  intros Horder Hrec.
  split; [symmetry; now apply getPlanetPosition_clamp|].
  split; [intros recNo; now apply record_number_below|].
  split.
  - intros Hlt. rewrite <- (getPlanetPosition_clamp e planet tjd Horder).
    now rewrite (clamp_below e tjd Hlt).
  - intros Hge Hgt. rewrite <- (getPlanetPosition_clamp e planet tjd Horder).
    now rewrite (clamp_above e tjd Hge Hgt).
Qed.

Lemma getPlanetPosition_clamps_witness :
  getPlanetPosition small_ephemeris JPLEph_Moon 7.5%float
  = getPlanetPosition small_ephemeris JPLEph_Moon
      (clamp small_ephemeris 7.5%float)
  /\ (forall recNo : Z,
        record_number small_ephemeris (clamp small_ephemeris 7.5%float)
        = Ret recNo ->
        0 <= recNo < Z.of_nat (length (records small_ephemeris)))
  /\ (PrimFloat.ltb 7.5%float (startDate small_ephemeris) = true ->
      getPlanetPosition small_ephemeris JPLEph_Moon 7.5%float
      = getPlanetPosition small_ephemeris JPLEph_Moon
          (startDate small_ephemeris))
  /\ (PrimFloat.ltb 7.5%float (startDate small_ephemeris) = false ->
      PrimFloat.ltb (endDate small_ephemeris) 7.5%float = true ->
      getPlanetPosition small_ephemeris JPLEph_Moon 7.5%float
      = getPlanetPosition small_ephemeris JPLEph_Moon
          (endDate small_ephemeris)).
Proof.
  apply (getPlanetPosition_clamps small_ephemeris JPLEph_Moon 7.5%float).
  - vm_compute. reflexivity.
  - vm_compute. discriminate.
Defined.

(** ** What load accepts *)

(** X13: [load] returns no ephemeris for a stream that is not good, or that
    ends before the [header_size] bytes of the header. *)
Theorem load_truncated_header (s : istream) :
  Z.of_nat (length (rest s)) < header_size \/ good s = false ->
  load s = Ret None.
Proof.
  intros H. unfold load, read.
  destruct (good s) eqn:Eg.
  - destruct H as [H|H]; [|discriminate].
    destruct (Z.to_nat header_size <=? length (rest s))%nat eqn:E.
    + apply Nat.leb_le in E. lia.
    + reflexivity.
  - rewrite Eg. reflexivity.
Qed.

Lemma load_truncated_header_witness :
  (Z.of_nat (length (rest (mkStream [] true))) < header_size
   \/ good (mkStream [] true) = false)
  /\ load (mkStream [] true) = Ret None.
Proof.
  split; [left; vm_compute; reflexivity|].
  apply (load_truncated_header (mkStream [] true)).
  left. vm_compute. reflexivity.
Defined.

(** A stream that is good after a read was good before it, and gave all the
    bytes asked for. *)
Lemma read_good (n : nat) (s : istream) :
  good (snd (read n s)) = true ->
  good s = true /\
  (length (rest s) = n + length (rest (snd (read n s))))%nat /\
  length (fst (read n s)) = n.
Proof.
  unfold read. destruct (good s) eqn:Eg.
  - destruct (n <=? length (rest s))%nat eqn:E; cbn [fst snd good rest].
    + intros _. apply Nat.leb_le in E.
      rewrite length_skipn, length_firstn. repeat split; lia.
    + discriminate.
  - cbn [snd]. congruence.
Qed.

Lemma ignore_good (n : Z) (s : istream) :
  good (ignore n s) = true ->
  good s = true /\
  Z.of_nat (length (rest s))
  = Z.max 0 n + Z.of_nat (length (rest (ignore n s))).
Proof.
  unfold ignore. destruct (good s) eqn:Eg.
  - destruct (n <=? 0) eqn:E0.
    + apply Z.leb_le in E0. intros _. split; [reflexivity|lia].
    + apply Z.leb_gt in E0.
      destruct (n <=? Z.of_nat (length (rest s))) eqn:E; cbn [good rest].
      * apply Z.leb_le in E. intros _. rewrite length_skipn.
        split; [reflexivity|lia].
      * discriminate.
  - congruence.
Qed.

Lemma readDouble_snd (s : istream) (swap : bool) :
  snd (readDouble s swap) = snd (read 8 s).
Proof. unfold readDouble. destruct (read 8 s). reflexivity. Qed.

Lemma readUint_snd (s : istream) (swap : bool) :
  snd (readUint s swap) = snd (read 4 s).
Proof. unfold readUint. destruct (read 4 s). reflexivity. Qed.

Lemma read_doubles_length (n : nat) (s : istream) (swap : bool) :
  length (fst (read_doubles n s swap)) = n.
Proof.
  revert s. induction n as [|n IH]; intros s; cbn [read_doubles].
  - reflexivity.
  - destruct (readDouble s swap) as [d s1].
    specialize (IH s1). destruct (read_doubles n s1 swap) as [ds s2].
    cbn [fst length] in *. lia.
Qed.

Lemma read_doubles_good (n : nat) (s : istream) (swap : bool) :
  good (snd (read_doubles n s swap)) = true ->
  good s = true /\
  (length (rest s) = 8 * n + length (rest (snd (read_doubles n s swap))))%nat.
Proof.
  revert s. induction n as [|n IH]; intros s; cbn [read_doubles].
  - cbn [snd]. intros H. split; [exact H|lia].
  - pose proof (readDouble_snd s swap) as Hd.
    destruct (readDouble s swap) as [d s1]. cbn [snd] in Hd.
    specialize (IH s1).
    destruct (read_doubles n s1 swap) as [ds s2]. cbn [snd] in *.
    intros Hg. destruct (IH Hg) as [Hs1 Hlen]. subst s1.
    destruct (read_good 8 s Hs1) as (Hs & Hlen' & _).
    split; [exact Hs|lia].
Qed.

(** The records the loop of [load] reads, when it reads them all. *)
Lemma read_records_shape (n : nat) (s : istream) (swap : bool) (count : Z)
    (rs : list JPLEphRecord) :
  read_records n s swap count = Some rs ->
  length rs = n /\
  Forall (fun r => length (coeffs r) = Z.to_nat count) rs /\
  (n * (8 * (2 + Z.to_nat count)) <= length (rest s))%nat.
Proof.
  revert s rs. induction n as [|n IH]; intros s rs; cbn [read_records].
  - intros H. injection H as <-. repeat split; [constructor | simpl; lia].
  - pose proof (readDouble_snd s swap) as Hd0.
    destruct (readDouble s swap) as [rt0 s1]. cbn [snd] in Hd0.
    pose proof (readDouble_snd s1 swap) as Hd1.
    destruct (readDouble s1 swap) as [rt1 s2]. cbn [snd] in Hd1.
    pose proof (read_doubles_length (Z.to_nat count) s2 swap) as Hlen.
    pose proof (read_doubles_good (Z.to_nat count) s2 swap) as Hgood.
    destruct (read_doubles (Z.to_nat count) s2 swap) as [cs s3].
    cbn [fst snd] in *.
    destruct (good s3) eqn:E3; [|discriminate].
    specialize (IH s3).
    destruct (read_records n s3 swap count) as [rs'|]; [|discriminate].
    intros H. injection H as <-.
    destruct (IH rs' eq_refl) as (IH1 & IH2 & IH3).
    destruct (Hgood eq_refl) as [Hs2 Hl2]. subst s2.
    destruct (read_good 8 s1 Hs2) as (Hs1 & Hl1 & _). subst s1.
    destruct (read_good 8 s Hs1) as (Hs & Hl0 & _).
    repeat split.
    + cbn [length]. lia.
    + constructor; [exact Hlen | exact IH2].
    + lia.
Qed.

Lemma load_coeffInfo_length (swap : bool) (infos : list JPLECoeff)
    (i recordSize : Z) :
  length (fst (load_coeffInfo swap i infos recordSize)) = length infos.
Proof.
  revert i recordSize. induction infos as [|c infos IH]; intros i recordSize.
  - reflexivity.
  - cbn [load_coeffInfo].
    match goal with
    | |- context [load_coeffInfo swap (i + 1) infos ?r] =>
        specialize (IH (i + 1) r); destruct (load_coeffInfo swap (i + 1) infos r)
    end.
    cbn [fst length] in *. lia.
Qed.

(** What [load] has done when it returns an ephemeris: [s1] is the stream
    after the header, [s2] the stream after the rest of the first record. *)
Lemma load_inversion (s : istream) (e : t) :
  load s = Ret (Some e) ->
  exists (s1 s2 : istream) (n : Z),
    good s = true /\
    Z.of_nat (length (rest s)) = header_size + Z.of_nat (length (rest s1)) /\
    (length (rest s2) <= length (rest s1))%nat /\
    good (ignore (u32 (recordSize e * 8)) s2) = true /\
    length (coeffInfo e) = Z.to_nat JPLEph_NItems /\
    to_uint32 ((endDate e - startDate e) / daysPerInterval e)%float = Ret n /\
    read_records (Z.to_nat n) (ignore (u32 (recordSize e * 8)) s2)
                 (swapBytes e) (u32 (recordSize e - 2))
    = Some (records e).
Proof.
  unfold load.
  pose proof (read_good (Z.to_nat header_size) s) as Hread.
  destruct (read (Z.to_nat header_size) s) as [bytes s1]. cbn [fst snd] in *.
  destruct (good s1) eqn:Es1; cbn [negb]; [|discriminate].
  destruct (Hread eq_refl) as (Hs & Hlen & _).
  destruct (detect_byte_order _) as [[swap d]|]; [|discriminate].
  pose proof (load_coeffInfo_length swap
                (fh_coeffInfo (decode_header bytes)) 0 0) as Hinfos.
  destruct (load_coeffInfo _ _ _ _) as [infos rs]. cbn [fst] in Hinfos.
  match goal with
  | |- context [let (_, _) := ?p in _] => destruct p as [rs' s2] eqn:Eskip
  end.
  destruct (good (ignore (u32 (rs' * 8)) s2)) eqn:Eg; cbn [negb];
    [|discriminate].
  destruct (to_uint32 _) as [n| |] eqn:En; cbn [bind]; try discriminate.
  destruct (read_records _ _ _ _) as [recs|] eqn:Er; [|discriminate].
  intros H. injection H as <-.
  cbn [recordSize coeffInfo endDate startDate daysPerInterval swapBytes records].
  exists s1, s2, n.
  split; [exact Hs|]. split.
  { rewrite Hlen. rewrite Nat2Z.inj_add, Z2Nat.id by (vm_compute; discriminate).
    reflexivity. }
  split.
  { destruct (ignore_good _ _ Eg) as [Hs2 _].
    destruct (d =? INPOP_DE_COMPATIBLE).
    - pose proof (readUint_snd s1 swap) as Hu.
      destruct (readUint s1 swap) as [v s1']. cbn [snd] in Hu.
      injection Eskip as <- <-.
      destruct (ignore_good _ _ Hs2) as [Hs1' Hl]. subst s1'.
      destruct (read_good 4 s1 Hs1') as (_ & Hl' & _). lia.
    - injection Eskip as <- <-.
      destruct (ignore_good _ _ Hs2) as [_ Hl]. lia. }
  split; [exact Eg|]. split.
  { rewrite Hinfos. unfold decode_header. cbn [fh_coeffInfo].
    now rewrite length_map, length_seq. }
  split; [exact En | exact Er].
Qed.

(** X14: an ephemeris [load] returns has a descriptor for each of the
    [JPLEph_NItems] items; the number of its records is the quotient of its
    span by the days of an interval, truncated; and every record has
    [recordSize - 2] coefficients. *)
Theorem load_records_shape (s : istream) (e : t) :
  load s = Ret (Some e) ->
  Z.of_nat (length (coeffInfo e)) = JPLEph_NItems
  /\ to_uint32 ((endDate e - startDate e) / daysPerInterval e)%float
     = Ret (Z.of_nat (length (records e)))
  /\ Forall (fun r => Z.of_nat (length (coeffs r)) = u32 (recordSize e - 2))
            (records e).
Proof.
  intros H.
  destruct (load_inversion s e H)
    as (s1 & s2 & n & _ & _ & _ & _ & Hinfos & Hn & Hrecs).
  apply read_records_shape in Hrecs. destruct Hrecs as (Hlen & Hall & _).
  pose proof (to_uint32_range _ _ Hn) as Hrange.
  split; [rewrite Hinfos; reflexivity|]. split.
  - rewrite Hn, Hlen. f_equal. lia.
  - eapply Forall_impl; [|exact Hall].
    intros r Hr. cbn beta in Hr. rewrite Hr.
    apply Z2Nat.id. apply Z.mod_pos_bound. lia.
Qed.

Lemma load_records_shape_witness :
  load (mkStream small_file true) = Ret (Some small_ephemeris)
  /\ Z.of_nat (length (coeffInfo small_ephemeris)) = JPLEph_NItems
  /\ to_uint32 ((endDate small_ephemeris - startDate small_ephemeris)
                / daysPerInterval small_ephemeris)%float
     = Ret (Z.of_nat (length (records small_ephemeris)))
  /\ Forall (fun r => Z.of_nat (length (coeffs r))
                      = u32 (recordSize small_ephemeris - 2))
            (records small_ephemeris).
Proof.
  split; [vm_compute; reflexivity|].
  apply (load_records_shape (mkStream small_file true) small_ephemeris).
  vm_compute. reflexivity.
Defined.

(** X15: [load] returns an ephemeris only from a stream that holds the
    header, the record of the constants and every record in full: the bytes
    of the stream are at least [header_size], plus eight bytes for each of
    the [recordSize] doubles of the record skipped, plus the bytes of the
    records kept. *)
Theorem load_file_size (s : istream) (e : t) :
  load s = Ret (Some e) ->
  header_size + u32 (recordSize e * 8)
  + Z.of_nat (length (records e)) * (8 * (2 + u32 (recordSize e - 2)))
  <= Z.of_nat (length (rest s)).
Proof.
  intros H.
  destruct (load_inversion s e H)
    as (s1 & s2 & n & _ & Hlen & Hle & Hgood & _ & _ & Hrecs).
  apply read_records_shape in Hrecs. destruct Hrecs as (Hn & _ & Hsize).
  destruct (ignore_good _ _ Hgood) as [_ Hskip].
  assert (Hu : 0 <= u32 (recordSize e * 8)) by (apply Z.mod_pos_bound; lia).
  assert (Hc : 0 <= u32 (recordSize e - 2)) by (apply Z.mod_pos_bound; lia).
  rewrite <- Hn in Hsize. nia.
Qed.

Lemma load_file_size_witness :
  load (mkStream small_file true) = Ret (Some small_ephemeris)
  /\ header_size + u32 (recordSize small_ephemeris * 8)
     + Z.of_nat (length (records small_ephemeris))
       * (8 * (2 + u32 (recordSize small_ephemeris - 2)))
     <= Z.of_nat (length (rest (mkStream small_file true))).
Proof.
  split; [vm_compute; reflexivity|].
  apply (load_file_size (mkStream small_file true) small_ephemeris).
  vm_compute. reflexivity.
Defined.

(** ** The numbers of the ephemerides *)

Lemma detect_both_ways_all :
  forallb detect_both_ways (100 :: interval 200 (Z.to_nat 32569)) = true.
Proof. vm_compute. reflexivity. Qed.

(** X16: the number of an ephemeris, 100 or a number from 200 to [2 ^ 15],
    is found in both byte orders: read as the host writes it, it is kept
    without a swap; read with its bytes reversed, the swap is chosen and the
    same number is kept. *)
Theorem detect_byte_order_both_ways (d : Z) :
  d = INPOP_DE_COMPATIBLE \/ DE200 <= d <= 2 ^ 15 ->
  detect_byte_order d = Some (false, d)
  /\ detect_byte_order (bswap_32 d) = Some (true, d).
Proof.
  unfold INPOP_DE_COMPATIBLE, DE200. intros H.
  pose proof detect_both_ways_all as Hall. rewrite forallb_forall in Hall.
  assert (Hin : In d (100 :: interval 200 (Z.to_nat 32569))).
  { destruct H as [->|H]; [left; reflexivity|].
    right. apply In_interval. lia. }
  specialize (Hall d Hin). unfold detect_both_ways in Hall.
  destruct (detect_byte_order d) as [[[|] d1]|]; try discriminate.
  destruct (detect_byte_order (bswap_32 d)) as [[[|] d2]|]; try discriminate.
  apply andb_true_iff in Hall. destruct Hall as [H1 H2].
  apply Z.eqb_eq in H1. apply Z.eqb_eq in H2. subst. split; reflexivity.
Qed.

Lemma detect_byte_order_both_ways_witness :
  (405 = INPOP_DE_COMPATIBLE \/ DE200 <= 405 <= 2 ^ 15)
  /\ detect_byte_order 405 = Some (false, 405)
  /\ detect_byte_order (bswap_32 405) = Some (true, 405).
Proof.
  split; [right; vm_compute; split; discriminate|].
  apply (detect_byte_order_both_ways 405).
  right. vm_compute. split; discriminate.
Defined.

(** X17: the number of an ephemeris [load] returns is 100 or at least 200,
    and at most [2 ^ 15] when the bytes are not swapped. *)
Theorem load_DENum_range (s : istream) (e : t) :
  load s = Ret (Some e) ->
  (DENum e = INPOP_DE_COMPATIBLE \/ DE200 <= DENum e)
  /\ (swapBytes e = false -> DENum e <= 2 ^ 15).
Proof.
  intros H. apply load_keeps_byte_order in H. destruct H as [_ H].
  revert H. unfold detect_byte_order.
  set (d := fh_deNum _).
  destruct (d =? INPOP_DE_COMPATIBLE) eqn:E1.
  { apply Z.eqb_eq in E1. intros H. injection H as <- <-.
    unfold INPOP_DE_COMPATIBLE in *. split; [left; assumption|]. lia. }
  destruct (bswap_32 d =? INPOP_DE_COMPATIBLE) eqn:E2.
  { apply Z.eqb_eq in E2. intros H. injection H as <- <-.
    split; [left; assumption|discriminate]. }
  destruct ((2 ^ 15 <? d) && (DE200 <=? bswap_32 d)) eqn:E3.
  { apply andb_true_iff in E3. destruct E3 as [_ E3]. apply Z.leb_le in E3.
    intros H. injection H as <- <-. split; [right; assumption|discriminate]. }
  destruct ((d <=? 2 ^ 15) && (DE200 <=? d)) eqn:E4; [|discriminate].
  apply andb_true_iff in E4. destruct E4 as [E4 E5].
  apply Z.leb_le in E4. apply Z.leb_le in E5.
  intros H. injection H as <- <-. split; [right; assumption|]. intros _. exact E4.
Qed.

Lemma load_DENum_range_witness :
  load (mkStream small_file true) = Ret (Some small_ephemeris)
  /\ (DENum small_ephemeris = INPOP_DE_COMPATIBLE
      \/ DE200 <= DENum small_ephemeris)
  /\ (swapBytes small_ephemeris = false -> DENum small_ephemeris <= 2 ^ 15).
Proof.
  split; [vm_compute; reflexivity|].
  apply (load_DENum_range (mkStream small_file true) small_ephemeris).
  vm_compute. reflexivity.
Defined.

(** ** The time and the arrays of a query *)

Lemma SFltb_irrefl (x : spec_float) : SFltb x x = false.
Proof.
  unfold SFltb, SFcompare.
  destruct x as [s|s| |s m e]; try (destruct s; reflexivity); try reflexivity.
  rewrite Z.compare_refl.
  replace (Pos.compare_cont Eq m m) with Eq
    by (symmetry; apply Pos.compare_cont_refl).
  destruct s; reflexivity.
Qed.

Lemma ltb_irrefl (x : float) : PrimFloat.ltb x x = false.
Proof. rewrite FloatAxioms.ltb_spec. apply SFltb_irrefl. Qed.

(** X18: in an ephemeris whose end is not before its start, the time
    [getPlanetPosition] computes with is never before the start and never
    after the end, whatever time is asked for (a NaN included, which is
    neither). *)
Theorem clamp_within_span (e : t) (tjd : float) :
  PrimFloat.ltb (endDate e) (startDate e) = false ->
  PrimFloat.ltb (clamp e tjd) (startDate e) = false
  /\ PrimFloat.ltb (endDate e) (clamp e tjd) = false.
Proof.
  intros H. unfold clamp.
  destruct (PrimFloat.ltb tjd (startDate e)) eqn:E1.
  - split; [apply ltb_irrefl | exact H].
  - destruct (PrimFloat.ltb (endDate e) tjd) eqn:E2.
    + split; [exact H | apply ltb_irrefl].
    + split; assumption.
Qed.

Lemma clamp_within_span_witness :
  PrimFloat.ltb (endDate small_ephemeris) (startDate small_ephemeris) = false
  /\ PrimFloat.ltb (clamp small_ephemeris 7.5%float)
                   (startDate small_ephemeris) = false
  /\ PrimFloat.ltb (endDate small_ephemeris)
                   (clamp small_ephemeris 7.5%float) = false.
Proof.
  split; [vm_compute; reflexivity|].
  apply (clamp_within_span small_ephemeris 7.5%float).
  vm_compute. reflexivity.
Defined.

Lemma array_get_inside {A : Type} (a : list A) (k : Z) :
  0 <= k < Z.of_nat (length a) -> exists v : A, array_get a k = Ret v.
Proof.
  intros H. unfold array_get.
  destruct (k <? 0) eqn:E; [apply Z.ltb_lt in E; lia|].
  destruct (nth_error a (Z.to_nat k)) as [v|] eqn:En; [eauto|].
  apply nth_error_None in En. lia.
Qed.

Lemma length_list_set {A : Type} (a : list A) (k : nat) (v : A) :
  length (list_set a k v) = length a.
Proof.
  revert k. induction a as [|x a IH]; intros [|k]; simpl; try reflexivity.
  now rewrite IH.
Qed.

Lemma array_set_inside {A : Type} (a : list A) (k : Z) (v : A) :
  0 <= k < Z.of_nat (length a) ->
  exists a' : list A, array_set a k v = Ret a' /\ length a' = length a.
Proof.
  intros H. unfold array_set.
  destruct ((0 <=? k) && (k <? Z.of_nat (length a))) eqn:E.
  - eexists. split; [reflexivity | apply length_list_set].
  - apply andb_false_iff in E. destruct E as [E|E];
      [apply Z.leb_gt in E | apply Z.ltb_ge in E]; lia.
Qed.

(** The inner loop stays inside [cc] and inside the coefficients. *)
Lemma chebyshev_terms_inside (turns : nat) (cf : list float) (base n : Z)
    (u : float) (i j : Z) (cc : list float) (sum : float) :
  n <= Z.of_nat (length cc) -> 2 <= j ->
  (forall k : Z, j <= k < n ->
     0 <= base + u32 (i * n + k) < Z.of_nat (length cf)) ->
  exists (cc' : list float) (sum' : float),
    chebyshev_terms turns cf base n u i j cc sum = Ret (cc', sum')
    /\ length cc' = length cc.
Proof.
  revert j cc sum. induction turns as [|turns IH]; intros j cc sum Hn Hj Hcf.
  - simpl. eauto.
  - cbn [chebyshev_terms]. destruct (j <? n) eqn:E; [|eauto].
    apply Z.ltb_lt in E.
    destruct (array_get_inside cc (j - 1)) as [c1 ->]; [lia|].
    destruct (array_get_inside cc (j - 2)) as [c2 ->]; [lia|].
    cbn [bind].
    destruct (array_set_inside cc j (2 * u * c1 - c2)%float) as (cc1 & -> & Hl);
      [lia|].
    cbn [bind].
    destruct (array_get_inside cf (base + u32 (i * n + j))) as [a ->];
      [apply Hcf; lia|].
    destruct (array_get_inside cc1 j) as [cj ->]; [lia|].
    cbn [bind].
    destruct (IH (j + 1) cc1 (sum + a * cj)%float) as (cc' & sum' & H1 & H2).
    + lia.
    + lia.
    + intros k Hk. apply Hcf. lia.
    + exists cc', sum'. split; [exact H1 | congruence].
Qed.

(** X19: the bound [getPlanetPosition] asserts is the one its array [cc]
    needs: with at most [MaxChebyshevCoeffs] coefficients, and the
    coefficients of the component inside the record (two of them are read
    even when there are fewer), the evaluation of a component returns a sum
    and leaves [cc] with its [MaxChebyshevCoeffs] elements. *)
Theorem chebyshev_component_inside (cf : list float) (base n : Z) (u : float)
    (i : Z) (cc : list float) :
  Z.of_nat (length cc) = MaxChebyshevCoeffs ->
  0 <= n <= MaxChebyshevCoeffs -> 0 <= i <= 2 -> 0 <= base ->
  base + i * n + Z.max n 2 <= Z.of_nat (length cf) ->
  exists (cc' : list float) (sum : float),
    chebyshev_component cf base n u i cc = Ret (cc', sum)
    /\ length cc' = length cc.
Proof.
  unfold MaxChebyshevCoeffs. intros Hcc Hn Hi Hbase Hcf.
  assert (Hu : forall k : Z, 0 <= k < Z.max n 2 -> u32 (i * n + k) = i * n + k).
  { intros k Hk. unfold u32. apply Z.mod_small. nia. }
  unfold chebyshev_component.
  destruct (array_set_inside cc 0 1%float) as (cc1 & -> & Hl1); [lia|].
  cbn [bind].
  destruct (array_set_inside cc1 1 u) as (cc2 & -> & Hl2); [lia|].
  cbn [bind].
  destruct (array_get_inside cf (base + u32 (i * n))) as [a0 ->].
  { replace (i * n) with (i * n + 0) by lia. rewrite Hu by lia. nia. }
  destruct (array_get_inside cf (base + u32 (i * n + 1))) as [a1 ->].
  { rewrite Hu by lia. nia. }
  cbn [bind].
  destruct (chebyshev_terms_inside (Z.to_nat (n - 2)) cf base n u i 2 cc2
              (a0 + a1 * u)%float) as (cc' & sum & H1 & H2).
  - lia.
  - lia.
  - intros k Hk. rewrite Hu by lia. nia.
  - exists cc', sum. split; [exact H1 | congruence].
Qed.

Lemma chebyshev_component_inside_witness :
  (Z.of_nat (length (repeat 0%float 32)) = MaxChebyshevCoeffs
   /\ 0 <= 3 <= MaxChebyshevCoeffs /\ 0 <= 2 <= 2 /\ 0 <= 1
   /\ 1 + 2 * 3 + Z.max 3 2 <= Z.of_nat (length (repeat 1%float 10)))
  /\ exists (cc' : list float) (sum : float),
       chebyshev_component (repeat 1%float 10) 1 3 0.5%float 2
                           (repeat 0%float 32) = Ret (cc', sum)
       /\ length cc' = length (repeat 0%float 32).
Proof.
  split.
  - unfold MaxChebyshevCoeffs. split; [reflexivity|].
    repeat split; try lia. vm_compute. discriminate.
  - apply (chebyshev_component_inside (repeat 1%float 10) 1 3 0.5%float 2
                                      (repeat 0%float 32)).
    + reflexivity.
    + unfold MaxChebyshevCoeffs. lia.
    + lia.
    + lia.
    + vm_compute. discriminate.
Defined.

(** ** The byte order, and what load does with it *)

Lemma read_enough (n : nat) (s : istream) :
  good s = true -> (n <= length (rest s))%nat ->
  read n s = (firstn n (rest s), mkStream (skipn n (rest s)) true).
Proof.
  intros Hg Hn. unfold read. rewrite Hg.
  destruct (n <=? length (rest s))%nat eqn:E; [reflexivity|].
  apply Nat.leb_gt in E. lia.
Qed.

Lemma read_enough_snd (n : nat) (s : istream) :
  good s = true -> (n <= length (rest s))%nat ->
  good (snd (read n s)) = true /\
  length (rest (snd (read n s))) = (length (rest s) - n)%nat.
Proof.
  intros Hg Hn. rewrite (read_enough n s Hg Hn). cbn [snd good rest].
  split; [reflexivity | apply length_skipn].
Qed.

Lemma ignore_enough (n : Z) (s : istream) :
  good s = true -> n <= Z.of_nat (length (rest s)) ->
  good (ignore n s) = true /\
  Z.of_nat (length (rest (ignore n s)))
  = Z.of_nat (length (rest s)) - Z.max 0 n.
Proof.
  intros Hg Hn. unfold ignore. rewrite Hg.
  destruct (n <=? 0) eqn:E0.
  - apply Z.leb_le in E0. split; [exact Hg | lia].
  - apply Z.leb_gt in E0.
    destruct (n <=? Z.of_nat (length (rest s))) eqn:E.
    + cbn [good rest]. rewrite length_skipn. split; [reflexivity | lia].
    + apply Z.leb_gt in E. lia.
Qed.

Lemma read_doubles_enough (n : nat) (s : istream) (swap : bool) :
  good s = true -> (8 * n <= length (rest s))%nat ->
  good (snd (read_doubles n s swap)) = true /\
  length (rest (snd (read_doubles n s swap))) = (length (rest s) - 8 * n)%nat.
Proof.
  revert s. induction n as [|n IH]; intros s Hg Hn; cbn [read_doubles].
  - cbn [snd]. split; [exact Hg | lia].
  - pose proof (readDouble_snd s swap) as Hd.
    destruct (readDouble s swap) as [d s1]. cbn [snd] in Hd. subst s1.
    destruct (read_enough_snd 8 s Hg) as [Hg1 Hl1]; [lia|].
    specialize (IH (snd (read 8 s)) Hg1).
    destruct (read_doubles n (snd (read 8 s)) swap) as [ds s2]. cbn [snd] in *.
    destruct IH as [Hg2 Hl2]; [lia|].
    split; [exact Hg2 | lia].
Qed.

(** The loop over the records reads them all from a stream that holds
    them. *)
Lemma read_records_enough (n : nat) (s : istream) (swap : bool) (count : Z) :
  good s = true ->
  (n * (8 * (2 + Z.to_nat count)) <= length (rest s))%nat ->
  exists rs : list JPLEphRecord,
    read_records n s swap count = Some rs /\ length rs = n.
Proof.
  revert s. induction n as [|n IH]; intros s Hg Hn; cbn [read_records].
  - exists []. split; reflexivity.
  - pose proof (readDouble_snd s swap) as Hd0.
    destruct (readDouble s swap) as [rt0 s1]. cbn [snd] in Hd0. subst s1.
    destruct (read_enough_snd 8 s Hg) as [Hg1 Hl1]; [lia|].
    set (s1 := snd (read 8 s)) in *.
    pose proof (readDouble_snd s1 swap) as Hd1.
    destruct (readDouble s1 swap) as [rt1 s2]. cbn [snd] in Hd1. subst s2.
    destruct (read_enough_snd 8 s1 Hg1) as [Hg2 Hl2]; [lia|].
    set (s2 := snd (read 8 s1)) in *.
    destruct (read_doubles_enough (Z.to_nat count) s2 swap Hg2) as [Hg3 Hl3];
      [lia|].
    destruct (read_doubles (Z.to_nat count) s2 swap) as [cs s3].
    cbn [snd] in *. rewrite Hg3.
    destruct (IH s3 Hg3) as (rs & Hrs & Hlen); [lia|].
    rewrite Hrs. eexists. split; [reflexivity|]. cbn [length]. now rewrite Hlen.
Qed.

Lemma to_streamsize_small (n : Z) :
  - 2 ^ 63 <= n < 2 ^ 63 -> to_streamsize n = n.
Proof.
  intros H. unfold to_streamsize, u64.
  destruct (Z_lt_le_dec n 0) as [Hneg|Hpos].
  - replace (n mod 2 ^ 64) with (n + 2 ^ 64).
    + destruct (n + 2 ^ 64 <? 2 ^ 63) eqn:E; [apply Z.ltb_lt in E; lia | lia].
    + apply Z.mod_unique with (q := -1); lia.
  - rewrite Z.mod_small by lia.
    destruct (n <? 2 ^ 63) eqn:E; [reflexivity | apply Z.ltb_ge in E; lia].
Qed.

Lemma u32_range (x : Z) : 0 <= u32 x < 2 ^ 32.
Proof. unfold u32. apply Z.mod_pos_bound. lia. Qed.

(** With the bytes of [tail] after it, a stream has the header it had. *)
Lemma read_header_app (s : istream) (tail : list byte) :
  good (snd (read (Z.to_nat header_size) s)) = true ->
  file_header (mkStream (rest s ++ tail) true) = file_header s
  /\ good (snd (read (Z.to_nat header_size) (mkStream (rest s ++ tail) true)))
     = true.
Proof.
  intros Hgood. destruct (read_good _ _ Hgood) as (Hs & Hlen & _).
  unfold file_header.
  remember (Z.to_nat header_size) as hs eqn:Hhs.
  assert (Hle : (hs <= length (rest s))%nat) by lia.
  rewrite (read_enough hs s Hs Hle).
  rewrite (read_enough hs (mkStream (rest s ++ tail) true) eq_refl)
    by (cbn [rest]; rewrite length_app; lia).
  cbn [fst snd rest good]. split; [|reflexivity].
  rewrite firstn_app. replace (hs - length (rest s))%nat with 0%nat by lia.
  cbn [firstn]. now rewrite app_nil_r.
Qed.

(** [load] returns no ephemeris where no byte order is found. *)
Lemma load_rejects (s : istream) :
  good (snd (read (Z.to_nat header_size) s)) = true ->
  detect_byte_order (fh_deNum (file_header s)) = None ->
  load s = Ret None.
Proof.
  unfold file_header. intros Hgood Hd. unfold load.
  destruct (read (Z.to_nat header_size) s) as [bytes s1]. cbn [fst snd] in *.
  rewrite Hgood. cbn [negb]. now rewrite Hd.
Qed.

(** Where a byte order is found, [load] goes on to the end: a stream that has
    [2 ^ 70] bytes or more after what it holds is long enough for whatever
    the header announces, and [load] returns an ephemeris from it unless the
    number of records has no value as an [unsigned int]. *)
Lemma load_accepts (s : istream) (tail : list byte) (swap : bool) (d : Z) :
  good (snd (read (Z.to_nat header_size) s)) = true ->
  detect_byte_order (fh_deNum (file_header s)) = Some (swap, d) ->
  2 ^ 70 <= Z.of_nat (length tail) ->
  (records_of_header swap (file_header s) = Undef
   /\ load (mkStream (rest s ++ tail) true) = Undef)
  \/ (exists (n : Z) (e : t),
        records_of_header swap (file_header s) = Ret n
        /\ load (mkStream (rest s ++ tail) true) = Ret (Some e)
        /\ swapBytes e = swap /\ DENum e = d
        /\ Z.of_nat (length (records e)) = n).
Proof.
  unfold file_header. intros Hgood Hdetect Htail.
  destruct (read_good _ _ Hgood) as (Hs & Hlen & _).
  assert (Hh : header_size = 2856) by reflexivity.
  remember (Z.to_nat header_size) as hs eqn:Hhs.
  assert (Hle : (hs <= length (rest s))%nat) by lia.
  rewrite (read_enough hs s Hs Hle) in Hdetect |- *. cbn [fst] in *.
  set (fh := decode_header (firstn hs (rest s))) in *.
  unfold load, records_of_header. rewrite <- Hhs.
  rewrite (read_enough hs (mkStream (rest s ++ tail) true) eq_refl)
    by (cbn [rest]; rewrite length_app; lia).
  cbn [rest good negb].
  assert (Hfirst : firstn hs (rest s ++ tail) = firstn hs (rest s)).
  { rewrite firstn_app. replace (hs - length (rest s))%nat with 0%nat by lia.
    cbn [firstn]. apply app_nil_r. }
  rewrite Hfirst. fold fh. rewrite Hdetect.
  destruct (load_coeffInfo swap 0 (fh_coeffInfo fh) 0) as [infos rs0].
  set (s1 := mkStream (skipn hs (rest s ++ tail)) true).
  assert (Hs1 : good s1 = true) by reflexivity.
  assert (Hl1 : 2 ^ 70 <= Z.of_nat (length (rest s1))).
  { unfold s1. cbn [rest]. rewrite length_skipn, length_app. lia. }
  match goal with
  | |- context [let (_, _) := ?p in _] => remember p as skipped eqn:Eskip
  end.
  assert (Hskip : good (snd skipped) = true
                  /\ 2 ^ 70 - 2 ^ 33 <= Z.of_nat (length (rest (snd skipped)))).
  { subst skipped. destruct (d =? INPOP_DE_COMPATIBLE).
    - pose proof (readUint_snd s1 swap) as Hu.
      destruct (readUint s1 swap) as [v s1']. cbn [snd] in *. subst s1'.
      destruct (read_enough_snd 4 s1 Hs1) as [Hg Hl]; [lia|].
      pose proof (u32_range (v * 8)) as Hv.
      rewrite to_streamsize_small by lia.
      destruct (ignore_enough (u32 (v * 8) - header_size - 4) _ Hg)
        as [Hg' Hl']; [lia|].
      split; [exact Hg'|]. lia.
    - cbn [snd].
      match goal with
      | |- context [ignore (to_streamsize (u32 ?a - header_size)) s1] =>
          pose proof (u32_range a) as Hv;
          destruct (ignore_enough (u32 a - header_size) s1 Hs1) as [Hg' Hl'];
          [lia|]
      end.
      rewrite to_streamsize_small by lia.
      split; [exact Hg'|]. lia. }
  destruct skipped as [rs s2]. cbn [snd] in Hskip. destruct Hskip as [Hg2 Hl2].
  pose proof (u32_range (rs * 8)) as Hrs8.
  destruct (ignore_enough (u32 (rs * 8)) s2 Hg2) as [Hg3 Hl3]; [lia|].
  rewrite Hg3. cbn [negb].
  destruct (to_uint32_cases
              ((MAYBE_SWAP_DOUBLE swap (fh_endDate fh)
                - MAYBE_SWAP_DOUBLE swap (fh_startDate fh))
               / MAYBE_SWAP_DOUBLE swap (fh_daysPerInterval fh))%float)
    as [[n Hn]|Hn]; rewrite Hn; cbn [bind].
  2: { left. split; reflexivity. }
  right. pose proof (to_uint32_range _ _ Hn) as Hnr.
  pose proof (u32_range (rs - 2)) as Hc.
  destruct (read_records_enough (Z.to_nat n) (ignore (u32 (rs * 8)) s2) swap
              (u32 (rs - 2)) Hg3) as (recs & Hrecs & Hlen').
  { assert (Hprod : Z.of_nat (Z.to_nat n * (8 * (2 + Z.to_nat (u32 (rs - 2)))))
                    <= 2 ^ 32 * (8 * (2 + 2 ^ 32))).
    { rewrite Nat2Z.inj_mul, Nat2Z.inj_mul, Nat2Z.inj_add, !Z2Nat.id by lia.
      apply Z.mul_le_mono_nonneg; lia. }
    lia. }
  rewrite Hrecs. exists n. eexists. split; [reflexivity|].
  split; [reflexivity|]. cbn [swapBytes DENum records].
  repeat split. lia.
Qed.

(** C6: after a header that is read whole, [load] follows the five rules of
    the specification in their order.  The rule that applies to [deNum] is
    the only one.  Where it is the last one, [load] returns no ephemeris, and
    none for the same stream with any bytes added to it.  Where it is one of
    the first four, an ephemeris that [load] returns has the flag and the
    number of the rule, and the byte order is no ground to refuse the file:
    with enough bytes added to the stream [load] does not return without an
    ephemeris, and returns one with the flag and the number of the rule and
    the number of records of the header whenever this number has a value. *)
Theorem load_byte_order (s : istream) :
  good (snd (read (Z.to_nat header_size) s)) = true ->
  exists r : option (bool * Z),
    byte_order_rule (fh_deNum (file_header s)) r /\
    (forall r' : option (bool * Z),
       byte_order_rule (fh_deNum (file_header s)) r' -> r' = r) /\
    match r with
    | None =>
        load s = Ret None /\
        forall tail : list byte,
          load (mkStream (rest s ++ tail) true) = Ret None
    | Some (swap, deNum) =>
        (forall e : t,
           load s = Ret (Some e) -> swapBytes e = swap /\ DENum e = deNum) /\
        exists tail : list byte,
          load (mkStream (rest s ++ tail) true) <> Ret None /\
          forall n : Z,
            records_of_header swap (file_header s) = Ret n ->
            exists e : t,
              load (mkStream (rest s ++ tail) true) = Ret (Some e) /\
              swapBytes e = swap /\ DENum e = deNum /\
              Z.of_nat (length (records e)) = n
    end.
Proof.
  intros Hgood.
  exists (detect_byte_order (fh_deNum (file_header s))).
  pose proof (detect_byte_order_rule (fh_deNum (file_header s))) as Hrule.
  split; [exact Hrule|]. split.
  { intros r' Hr'. exact (byte_order_rule_functional _ _ _ Hr' Hrule). }
  destruct (detect_byte_order (fh_deNum (file_header s))) as [[swap d]|] eqn:Ed.
  - split.
    + intros e He. apply load_keeps_byte_order in He. destruct He as [_ He].
      fold (file_header s) in He. rewrite Ed in He. injection He as <- <-.
      split; reflexivity.
    + set (tail := repeat x00 (Z.to_nat (2 ^ 70))).
      assert (Htail : 2 ^ 70 <= Z.of_nat (length tail)).
      { unfold tail. rewrite repeat_length. lia. }
      exists tail.
      destruct (load_accepts s tail swap d Hgood Ed Htail)
        as [[Hn Hl]|(n & e & Hn & Hl & Hsw & Hde & Hrec)].
      * split; [rewrite Hl; discriminate|].
        intros n Hn'. rewrite Hn in Hn'. discriminate.
      * split; [rewrite Hl; discriminate|].
        intros n' Hn'. rewrite Hn in Hn'. injection Hn' as <-.
        exists e. auto.
  - split; [exact (load_rejects s Hgood Ed)|].
    intros tail. destruct (read_header_app s tail Hgood) as [Hfst Hg].
    apply load_rejects; [exact Hg|]. rewrite Hfst. exact Ed.
Qed.

Lemma load_byte_order_witness :
  good (snd (read (Z.to_nat header_size) (mkStream swapped_small_file true)))
  = true
  /\ exists r : option (bool * Z),
       byte_order_rule
         (fh_deNum (file_header (mkStream swapped_small_file true))) r /\
       (forall r' : option (bool * Z),
          byte_order_rule
            (fh_deNum (file_header (mkStream swapped_small_file true))) r' ->
          r' = r) /\
       match r with
       | None =>
           load (mkStream swapped_small_file true) = Ret None /\
           forall tail : list byte,
             load (mkStream (rest (mkStream swapped_small_file true) ++ tail)
                            true) = Ret None
       | Some (swap, deNum) =>
           (forall e : t,
              load (mkStream swapped_small_file true) = Ret (Some e) ->
              swapBytes e = swap /\ DENum e = deNum) /\
           exists tail : list byte,
             load (mkStream (rest (mkStream swapped_small_file true) ++ tail)
                            true) <> Ret None /\
             forall n : Z,
               records_of_header
                 swap (file_header (mkStream swapped_small_file true)) = Ret n ->
               exists e : t,
                 load (mkStream
                         (rest (mkStream swapped_small_file true) ++ tail) true)
                 = Ret (Some e) /\
                 swapBytes e = swap /\ DENum e = deNum /\
                 Z.of_nat (length (records e)) = n
       end.
Proof.
  split; [vm_compute; reflexivity|].
  apply (load_byte_order (mkStream swapped_small_file true)).
  vm_compute. reflexivity.
Defined.

(** A file for each of the four rules that find a byte order: [small_file]
    is a DE file in the order of the host (see [load_small_file]); the same
    file in the other order, and the same data as an INPOP file in both
    orders, give the same ephemeris with the flag and the number of their
    rule. *)
Example load_swapped_small_file :
  byte_order_rule (fh_deNum (file_header (mkStream swapped_small_file true)))
                  (Some (true, 405))
  /\ load (mkStream swapped_small_file true)
     = Ret (Some (small_ephemeris_as 405 true)).
Proof.
  split; [apply rule_DE_swap; vm_compute; congruence|].
  vm_compute. reflexivity.
Qed.

Example load_inpop_small_file :
  byte_order_rule (fh_deNum (file_header (mkStream inpop_small_file true)))
                  (Some (false, 100))
  /\ load (mkStream inpop_small_file true)
     = Ret (Some (small_ephemeris_as 100 false)).
Proof.
  split; [apply rule_INPOP_same; vm_compute; reflexivity|].
  vm_compute. reflexivity.
Qed.

Example load_inpop_swapped_small_file :
  byte_order_rule
    (fh_deNum (file_header (mkStream inpop_swapped_small_file true)))
    (Some (true, 100))
  /\ load (mkStream inpop_swapped_small_file true)
     = Ret (Some (small_ephemeris_as 100 true)).
Proof.
  split; [apply rule_INPOP_swap; vm_compute; congruence|].
  vm_compute. reflexivity.
Qed.

Example small_file_by : de_file_by le_bytes small_header 496 small_data = small_file.
Proof. vm_compute. reflexivity. Qed.

(** ** The end of the span *)

(** A time after the end of the span does what the end of the span does. *)
Lemma getPlanetPosition_after_end (e : t) (planet : JPLEphemItem)
    (tjd : float) :
  PrimFloat.ltb (endDate e) (startDate e) = false ->
  PrimFloat.ltb tjd (startDate e) = false ->
  PrimFloat.ltb (endDate e) tjd = true ->
  getPlanetPosition e planet tjd = getPlanetPosition e planet (endDate e).
Proof.
  intros Horder Hge Hgt.
  rewrite <- (getPlanetPosition_clamp e planet tjd Horder).
  now rewrite (clamp_above e tjd Hge Hgt).
Qed.

(** C8: the query fails at the end of the span and after it.  In the
    ephemeris [load] returns for [short_file], where the coefficients of the
    Sun are the last ones of a record, the position of the Sun is computed
    inside the span, and at [endDate] and at every later time its
    coefficients are read past the end of the record; the Moon, at 0 km
    inside the span, is given the position of the Sun at [endDate] and after
    it.  In the ephemeris [load] returns for [small_file] the Moon, at 384400
    km inside the span, is at 0 km after it, and the query for the nutations
    reads past the end of the record.  A time after the end does what
    [endDate] does, whatever the ephemeris. *)
Theorem getPlanetPosition_fails_at_endDate :
  (load (mkStream short_file true) = Ret (Some short_ephemeris)
   /\ getPlanetPosition short_ephemeris JPLEph_Sun 0.5%float
      = Ret (double_of_bits bits_tenth, 0%float, 0%float)
   /\ getPlanetPosition short_ephemeris JPLEph_Sun (endDate short_ephemeris)
      = Undef
   /\ getPlanetPosition short_ephemeris JPLEph_Sun 7.5%float = Undef
   /\ getPlanetPosition short_ephemeris JPLEph_Moon 0.5%float
      = Ret (0%float, 0%float, 0%float)
   /\ getPlanetPosition short_ephemeris JPLEph_Moon (endDate short_ephemeris)
      = Ret (double_of_bits bits_tenth, 0%float, 0%float)
   /\ getPlanetPosition short_ephemeris JPLEph_Moon 7.5%float
      = Ret (double_of_bits bits_tenth, 0%float, 0%float))
  /\ (load (mkStream small_file true) = Ret (Some small_ephemeris)
      /\ getPlanetPosition small_ephemeris JPLEph_Moon 0.5%float
         = Ret (double_of_bits bits_384400, 0%float, 0%float)
      /\ getPlanetPosition small_ephemeris JPLEph_Moon 7.5%float
         = Ret (0%float, 0%float, 0%float)
      /\ getPlanetPosition small_ephemeris JPLEph_Nutation 0.5%float
         = Ret (0%float, 0%float, 0%float)
      /\ getPlanetPosition small_ephemeris JPLEph_Nutation 7.5%float = Undef)
  /\ (forall (e : t) (planet : JPLEphemItem) (tjd : float),
        PrimFloat.ltb (endDate e) (startDate e) = false ->
        PrimFloat.ltb tjd (startDate e) = false ->
        PrimFloat.ltb (endDate e) tjd = true ->
        getPlanetPosition e planet tjd
        = getPlanetPosition e planet (endDate e)).
Proof.
  split; [repeat split; vm_compute; reflexivity|].
  split; [repeat split; vm_compute; reflexivity|].
  exact getPlanetPosition_after_end.
Qed.

End JPLEphemerisProperties.
